(** * Drag model of go_ballisticcalc (Drag.go)

    A shallow embedding of [Drag.go]: the drag-table identifiers, the
    [BallisticCoefficient] constructor, the eight reference tables, the
    curve fitter [calculateCurve] and the evaluator [calculateByCurve].

    Modelling conventions.
    - Go's [float64] is the carrier [F] of the interface [Float64].  Two
      instances are used: [binary64], IEEE 754 double precision with
      round-to-nearest-even (the Standard Library's [SpecFloat], the
      executable specification of hardware floats), and [exactQ], exact
      rational arithmetic, in which the algebra of the fit can be stated
      without rounding.  [exactQ] is not the arithmetic of the program: it
      has no rounding, overflow, NaN or infinity, and [x / 0] is 0 there;
      what is proved of the program is stated for [binary64] or for every
      instance.  The embedding rounds after every operation, as
      the compiler does on amd64 by default; where it fuses [x*y + z] the
      last bits of a result may differ, far below the tolerances used
      here.
    - An untyped decimal constant of the source ([0.725], [2.08551e-04]) is
      an exact rational; [fconst] converts it to [F] the way the compiler
      does (correct rounding for [binary64]).
    - Go's [int] is [Z]; slices are lists, indexed through [index], which
      panics out of range as Go does.  In [calculateByCurve] the middle
      index [int(math.Floor(float64(mhi+mlo) / 2.0))] is [(mhi + mlo) / 2]
      in [Z]: the conversion and the halving are exact below 2^53, far
      above any slice length.
    - A call either returns, returns a non-nil [error], or panics:
      [result].  The run-time panics of slice indexing carry one message,
      without the index and the length Go adds to it.  [OutOfFuel] is the
      embedding's own outcome for a loop cut short; it is proved
      unreachable ([calculateByCurve_fuel]). *)

From Stdlib Require Import ZArith QArith Lia Lqa String Strings.Byte DecimalString.
From Stdlib Require Import Floats.SpecFloat.
From stdpp Require Import base list.

Set Default Proof Using "Type".
Local Open Scope Z_scope.

(** ** Outcomes of a call *)

Inductive result (A : Type) : Type :=
| Ok (a : A)
| Err (msg : string)
| Panic (msg : string)
| OutOfFuel.

Arguments Ok {A} a.
Arguments Err {A} msg.
Arguments Panic {A} msg.
Arguments OutOfFuel {A}.

#[export] Instance result_bind : MBind result := fun A B k r =>
  match r with
  | Ok a => k a
  | Err msg => Err msg
  | Panic msg => Panic msg
  | OutOfFuel => OutOfFuel
  end.

(** [for i := ...] over a fixed range: the body is run on each index in
    order and the first panic stops the loop. *)
Fixpoint forM {A S : Type} (body : A -> S -> result S) (range : list A) (s : S)
  : result S :=
  match range with
  | [] => Ok s
  | i :: rest => s' ← body i s; forM body rest s'
  end.

(** ** Slices *)

Definition index_out_of_range : string := "runtime error: index out of range".

(** [l[i]] *)
Definition index {A : Type} (l : list A) (i : Z) : result A :=
  if 0 <=? i then
    match l !! Z.to_nat i with
    | Some x => Ok x
    | None => Panic index_out_of_range
    end
  else Panic index_out_of_range.

(** [l[i] = x] *)
Definition store {A : Type} (l : list A) (i : Z) (x : A) : result (list A) :=
  if (0 <=? i) && (i <? Z.of_nat (length l)) then Ok (<[Z.to_nat i := x]> l)
  else Panic index_out_of_range.

(** ** float64 *)

Class Float64 (F : Type) : Type := {
  fconst : Q -> F;
  fadd : F -> F -> F;
  fsub : F -> F -> F;
  fmul : F -> F -> F;
  fdiv : F -> F -> F;
  fltb : F -> F -> bool;
  fleb : F -> F -> bool;
}.

Declare Scope f64_scope.
Delimit Scope f64_scope with f64.
Infix "+" := fadd : f64_scope.
Infix "-" := fsub : f64_scope.
Infix "*" := fmul : f64_scope.
Infix "/" := fdiv : f64_scope.
Infix "<?" := fltb : f64_scope.
Infix "<=?" := fleb : f64_scope.
Notation "x >? y" := (fltb y x) (only parsing) : f64_scope.

(** IEEE 754 binary64. *)
Definition b64 : Type := spec_float.

Definition b64_of_Z (z : Z) : b64 := binary_normalize 53 1024 z 0 false.

(** The nearest double of a decimal constant [n/d]: [n] and [d] are below
    2^53 for every constant of the source, so both convert exactly and the
    one division rounds once. *)
Definition b64_of_Q (q : Q) : b64 :=
  SFdiv 53 1024 (b64_of_Z (Qnum q)) (b64_of_Z (Zpos (Qden q))).

#[export] Instance binary64 : Float64 b64 := {
  fconst := b64_of_Q;
  fadd := SFadd 53 1024;
  fsub := SFsub 53 1024;
  fmul := SFmul 53 1024;
  fdiv := SFdiv 53 1024;
  fltb := SFltb;
  fleb := SFleb;
}.

(** Exact rational arithmetic. *)
Definition Qltb (x y : Q) : bool := negb (Qle_bool y x).

#[export] Instance exactQ : Float64 Q := {
  fconst := fun q => q;
  fadd := Qplus;
  fsub := Qminus;
  fmul := Qmult;
  fdiv := Qdiv;
  fltb := Qltb;
  fleb := Qle_bool;
}.

(** ** Identifiers of the drag tables *)

Definition DragTableG1 : byte := x01.
Definition DragTableG2 : byte := x02.
Definition DragTableG5 : byte := x03.
Definition DragTableG6 : byte := x04.
Definition DragTableG7 : byte := x05.
Definition DragTableG8 : byte := x06.
Definition DragTableGS : byte := x07.
Definition DragTableGI : byte := x08.

Definition byte_ltb (a b : byte) : bool := (Byte.to_N a <? Byte.to_N b)%N.

(** ** Data *)

Module DataPoint.
Record t (F : Type) : Type := mk { A : F; B : F }.
Arguments mk {F} A B.
Arguments A {F} _.
Arguments B {F} _.
End DataPoint.

Module CurvePoint.
Record t (F : Type) : Type := mk { A : F; B : F; C : F }.
Arguments mk {F} A B C.
Arguments A {F} _.
Arguments B {F} _.
Arguments C {F} _.
End CurvePoint.

Definition dragFunction (F : Type) : Type := F -> result F.

Module BallisticCoefficient.
Record t (F : Type) : Type := mk { value : F; table : byte; drag : dragFunction F }.
Arguments mk {F} value table drag.
Arguments value {F} _.
Arguments table {F} _.
Arguments drag {F} _.
End BallisticCoefficient.

Section Drag.
Context {F : Type} `{Float64 F}.
Local Open Scope f64_scope.

Definition point (a b : Q) : DataPoint.t F :=
  DataPoint.mk (fconst a) (fconst b).

(** *** calculateCurve *)

(** The closed-form quadratic through three samples, as the loop body
    computes it. *)
Definition fitThree (p1 p2 p3 : DataPoint.t F) : CurvePoint.t F :=
  let x1 := DataPoint.A p1 in
  let x2 := DataPoint.A p2 in
  let x3 := DataPoint.A p3 in
  let y1 := DataPoint.B p1 in
  let y2 := DataPoint.B p2 in
  let y3 := DataPoint.B p3 in
  let a := ((y3 - y1) * (x2 - x1) - (y2 - y1) * (x3 - x1))
           / ((x3 * x3 - x1 * x1) * (x2 - x1) - (x2 * x2 - x1 * x1) * (x3 - x1)) in
  let b := (y2 - y1 - a * (x2 * x2 - x1 * x1)) / (x2 - x1) in
  let c := y1 - (a * x1 * x1 + b * x1) in
  CurvePoint.mk a b c.

(** The body of the loop over the interior samples [i]. *)
Definition fitInterior (dataPoints : list (DataPoint.t F)) (i : Z)
    (curve : list (CurvePoint.t F)) : result (list (CurvePoint.t F)) :=
  p1 ← index dataPoints (i - 1)%Z;
  p2 ← index dataPoints i;
  p3 ← index dataPoints (i + 1)%Z;
  store curve i (fitThree p1 p2 p3).

(** The two boundary segments: a line of secant slope [rate]. *)
Definition firstSegment (d0 d1 : DataPoint.t F) : CurvePoint.t F :=
  let rate := (DataPoint.B d1 - DataPoint.B d0) / (DataPoint.A d1 - DataPoint.A d0) in
  CurvePoint.mk (fconst 0) rate (DataPoint.B d0 - DataPoint.A d0 * rate).

Definition lastSegment (dk dl : DataPoint.t F) : CurvePoint.t F :=
  let rate := (DataPoint.B dl - DataPoint.B dk) / (DataPoint.A dl - DataPoint.A dk) in
  CurvePoint.mk (fconst 0) rate (DataPoint.B dl - DataPoint.A dk * rate).

Definition calculateCurve (dataPoints : list (DataPoint.t F))
  : result (list (CurvePoint.t F)) :=
  let numPoints := Z.of_nat (length dataPoints) in
  let zero := CurvePoint.mk (fconst 0) (fconst 0) (fconst 0) in
  let curve := replicate (length dataPoints) zero in
  d1 ← index dataPoints 1;
  d0 ← index dataPoints 0;
  curve ← store curve 0 (firstSegment d0 d1);
  curve ← forM (fitInterior dataPoints) (seqZ 1 (numPoints - 2)) curve;
  dl ← index dataPoints (numPoints - 1)%Z;
  dk ← index dataPoints (numPoints - 2)%Z;
  store curve (numPoints - 1)%Z (lastSegment dk dl).

(** *** calculateByCurve *)

(** The [for (mhi - mlo) > 1] loop; it returns the final [(mlo, mhi)].
    The interval shrinks at every turn, so [mhi - mlo] turns suffice. *)
Fixpoint searchLoop (fuel : nat) (data : list (DataPoint.t F)) (mach : F)
    (mlo mhi : Z) : result (Z * Z) :=
  if (mhi - mlo >? 1)%Z then
    match fuel with
    | O => OutOfFuel
    | S fuel' =>
        let mid := ((mhi + mlo) / 2)%Z in
        d ← index data mid;
        if DataPoint.A d <? mach
        then searchLoop fuel' data mach mid mhi
        else searchLoop fuel' data mach mlo mid
    end
  else Ok (mlo, mhi).

(** The index [m] of the segment [calculateByCurve] evaluates. *)
Definition selectSegment (data : list (DataPoint.t F)) (curve : list (CurvePoint.t F))
    (mach : F) : result Z :=
  let numPoints := Z.of_nat (length curve) in
  let mlo := 0%Z in
  let mhi := (numPoints - 2)%Z in
  '(mlo, mhi) ← searchLoop (Z.to_nat (mhi - mlo)) data mach mlo mhi;
  dhi ← index data mhi;
  dlo ← index data mlo;
  if (DataPoint.A dhi - mach) >? (mach - DataPoint.A dlo)
  then Ok mlo
  else Ok mhi.

(** [c.C + mach*(c.B + c.A*mach)] *)
Definition evalSegment (c : CurvePoint.t F) (mach : F) : F :=
  CurvePoint.C c + mach * (CurvePoint.B c + CurvePoint.A c * mach).

Definition calculateByCurve (data : list (DataPoint.t F))
    (curve : list (CurvePoint.t F)) (mach : F) : result F :=
  m ← selectSegment data curve mach;
  c ← index curve m;
  Ok (evalSegment c mach).

(** *** The reference tables

    [gXCurve] is computed once, when the package is initialised. *)

Definition g1Table : list (DataPoint.t F) := [
  point 0.00 0.2629;
  point 0.05 0.2558;
  point 0.10 0.2487;
  point 0.15 0.2413;
  point 0.20 0.2344;
  point 0.25 0.2278;
  point 0.30 0.2214;
  point 0.35 0.2155;
  point 0.40 0.2104;
  point 0.45 0.2061;
  point 0.50 0.2032;
  point 0.55 0.2020;
  point 0.60 0.2034;
  point 0.70 0.2165;
  point 0.725 0.2230;
  point 0.75 0.2313;
  point 0.775 0.2417;
  point 0.80 0.2546;
  point 0.825 0.2706;
  point 0.85 0.2901;
  point 0.875 0.3136;
  point 0.90 0.3415;
  point 0.925 0.3734;
  point 0.95 0.4084;
  point 0.975 0.4448;
  point 1.0 0.4805;
  point 1.025 0.5136;
  point 1.05 0.5427;
  point 1.075 0.5677;
  point 1.10 0.5883;
  point 1.125 0.6053;
  point 1.15 0.6191;
  point 1.20 0.6393;
  point 1.25 0.6518;
  point 1.30 0.6589;
  point 1.35 0.6621;
  point 1.40 0.6625;
  point 1.45 0.6607;
  point 1.50 0.6573;
  point 1.55 0.6528;
  point 1.60 0.6474;
  point 1.65 0.6413;
  point 1.70 0.6347;
  point 1.75 0.6280;
  point 1.80 0.6210;
  point 1.85 0.6141;
  point 1.90 0.6072;
  point 1.95 0.6003;
  point 2.00 0.5934;
  point 2.05 0.5867;
  point 2.10 0.5804;
  point 2.15 0.5743;
  point 2.20 0.5685;
  point 2.25 0.5630;
  point 2.30 0.5577;
  point 2.35 0.5527;
  point 2.40 0.5481;
  point 2.45 0.5438;
  point 2.50 0.5397;
  point 2.60 0.5325;
  point 2.70 0.5264;
  point 2.80 0.5211;
  point 2.90 0.5168;
  point 3.00 0.5133;
  point 3.10 0.5105;
  point 3.20 0.5084;
  point 3.30 0.5067;
  point 3.40 0.5054;
  point 3.50 0.5040;
  point 3.60 0.5030;
  point 3.70 0.5022;
  point 3.80 0.5016;
  point 3.90 0.5010;
  point 4.00 0.5006;
  point 4.20 0.4998;
  point 4.40 0.4995;
  point 4.60 0.4992;
  point 4.80 0.4990;
  point 5.00 0.4988
].

Definition g1Curve : result (list (CurvePoint.t F)) := calculateCurve g1Table.

Definition g7Table : list (DataPoint.t F) := [
  point 0.00 0.1198;
  point 0.05 0.1197;
  point 0.10 0.1196;
  point 0.15 0.1194;
  point 0.20 0.1193;
  point 0.25 0.1194;
  point 0.30 0.1194;
  point 0.35 0.1194;
  point 0.40 0.1193;
  point 0.45 0.1193;
  point 0.50 0.1194;
  point 0.55 0.1193;
  point 0.60 0.1194;
  point 0.65 0.1197;
  point 0.70 0.1202;
  point 0.725 0.1207;
  point 0.75 0.1215;
  point 0.775 0.1226;
  point 0.80 0.1242;
  point 0.825 0.1266;
  point 0.85 0.1306;
  point 0.875 0.1368;
  point 0.90 0.1464;
  point 0.925 0.1660;
  point 0.95 0.2054;
  point 0.975 0.2993;
  point 1.0 0.3803;
  point 1.025 0.4015;
  point 1.05 0.4043;
  point 1.075 0.4034;
  point 1.10 0.4014;
  point 1.125 0.3987;
  point 1.15 0.3955;
  point 1.20 0.3884;
  point 1.25 0.3810;
  point 1.30 0.3732;
  point 1.35 0.3657;
  point 1.40 0.3580;
  point 1.50 0.3440;
  point 1.55 0.3376;
  point 1.60 0.3315;
  point 1.65 0.3260;
  point 1.70 0.3209;
  point 1.75 0.3160;
  point 1.80 0.3117;
  point 1.85 0.3078;
  point 1.90 0.3042;
  point 1.95 0.3010;
  point 2.00 0.2980;
  point 2.05 0.2951;
  point 2.10 0.2922;
  point 2.15 0.2892;
  point 2.20 0.2864;
  point 2.25 0.2835;
  point 2.30 0.2807;
  point 2.35 0.2779;
  point 2.40 0.2752;
  point 2.45 0.2725;
  point 2.50 0.2697;
  point 2.55 0.2670;
  point 2.60 0.2643;
  point 2.65 0.2615;
  point 2.70 0.2588;
  point 2.75 0.2561;
  point 2.80 0.2533;
  point 2.85 0.2506;
  point 2.90 0.2479;
  point 2.95 0.2451;
  point 3.00 0.2424;
  point 3.10 0.2368;
  point 3.20 0.2313;
  point 3.30 0.2258;
  point 3.40 0.2205;
  point 3.50 0.2154;
  point 3.60 0.2106;
  point 3.70 0.2060;
  point 3.80 0.2017;
  point 3.90 0.1975;
  point 4.00 0.1935;
  point 4.20 0.1861;
  point 4.40 0.1793;
  point 4.60 0.1730;
  point 4.80 0.1672;
  point 5.00 0.1618
].

Definition g7Curve : result (list (CurvePoint.t F)) := calculateCurve g7Table.

Definition g2Table : list (DataPoint.t F) := [
  point 0.00 0.2303;
  point 0.05 0.2298;
  point 0.10 0.2287;
  point 0.15 0.2271;
  point 0.20 0.2251;
  point 0.25 0.2227;
  point 0.30 0.2196;
  point 0.35 0.2156;
  point 0.40 0.2107;
  point 0.45 0.2048;
  point 0.50 0.1980;
  point 0.55 0.1905;
  point 0.60 0.1828;
  point 0.65 0.1758;
  point 0.70 0.1702;
  point 0.75 0.1669;
  point 0.775 0.1664;
  point 0.80 0.1667;
  point 0.825 0.1682;
  point 0.85 0.1711;
  point 0.875 0.1761;
  point 0.90 0.1831;
  point 0.925 0.2004;
  point 0.95 0.2589;
  point 0.975 0.3492;
  point 1.0 0.3983;
  point 1.025 0.4075;
  point 1.05 0.4103;
  point 1.075 0.4114;
  point 1.10 0.4106;
  point 1.125 0.4089;
  point 1.15 0.4068;
  point 1.175 0.4046;
  point 1.20 0.4021;
  point 1.25 0.3966;
  point 1.30 0.3904;
  point 1.35 0.3835;
  point 1.40 0.3759;
  point 1.45 0.3678;
  point 1.50 0.3594;
  point 1.55 0.3512;
  point 1.60 0.3432;
  point 1.65 0.3356;
  point 1.70 0.3282;
  point 1.75 0.3213;
  point 1.80 0.3149;
  point 1.85 0.3089;
  point 1.90 0.3033;
  point 1.95 0.2982;
  point 2.00 0.2933;
  point 2.05 0.2889;
  point 2.10 0.2846;
  point 2.15 0.2806;
  point 2.20 0.2768;
  point 2.25 0.2731;
  point 2.30 0.2696;
  point 2.35 0.2663;
  point 2.40 0.2632;
  point 2.45 0.2602;
  point 2.50 0.2572;
  point 2.55 0.2543;
  point 2.60 0.2515;
  point 2.65 0.2487;
  point 2.70 0.2460;
  point 2.75 0.2433;
  point 2.80 0.2408;
  point 2.85 0.2382;
  point 2.90 0.2357;
  point 2.95 0.2333;
  point 3.00 0.2309;
  point 3.10 0.2262;
  point 3.20 0.2217;
  point 3.30 0.2173;
  point 3.40 0.2132;
  point 3.50 0.2091;
  point 3.60 0.2052;
  point 3.70 0.2014;
  point 3.80 0.1978;
  point 3.90 0.1944;
  point 4.00 0.1912;
  point 4.20 0.1851;
  point 4.40 0.1794;
  point 4.60 0.1741;
  point 4.80 0.1693;
  point 5.00 0.1648
].

Definition g2Curve : result (list (CurvePoint.t F)) := calculateCurve g2Table.

Definition g5Table : list (DataPoint.t F) := [
  point 0.00 0.1710;
  point 0.05 0.1719;
  point 0.10 0.1727;
  point 0.15 0.1732;
  point 0.20 0.1734;
  point 0.25 0.1730;
  point 0.30 0.1718;
  point 0.35 0.1696;
  point 0.40 0.1668;
  point 0.45 0.1637;
  point 0.50 0.1603;
  point 0.55 0.1566;
  point 0.60 0.1529;
  point 0.65 0.1497;
  point 0.70 0.1473;
  point 0.75 0.1463;
  point 0.80 0.1489;
  point 0.85 0.1583;
  point 0.875 0.1672;
  point 0.90 0.1815;
  point 0.925 0.2051;
  point 0.95 0.2413;
  point 0.975 0.2884;
  point 1.0 0.3379;
  point 1.025 0.3785;
  point 1.05 0.4032;
  point 1.075 0.4147;
  point 1.10 0.4201;
  point 1.15 0.4278;
  point 1.20 0.4338;
  point 1.25 0.4373;
  point 1.30 0.4392;
  point 1.35 0.4403;
  point 1.40 0.4406;
  point 1.45 0.4401;
  point 1.50 0.4386;
  point 1.55 0.4362;
  point 1.60 0.4328;
  point 1.65 0.4286;
  point 1.70 0.4237;
  point 1.75 0.4182;
  point 1.80 0.4121;
  point 1.85 0.4057;
  point 1.90 0.3991;
  point 1.95 0.3926;
  point 2.00 0.3861;
  point 2.05 0.3800;
  point 2.10 0.3741;
  point 2.15 0.3684;
  point 2.20 0.3630;
  point 2.25 0.3578;
  point 2.30 0.3529;
  point 2.35 0.3481;
  point 2.40 0.3435;
  point 2.45 0.3391;
  point 2.50 0.3349;
  point 2.60 0.3269;
  point 2.70 0.3194;
  point 2.80 0.3125;
  point 2.90 0.3060;
  point 3.00 0.2999;
  point 3.10 0.2942;
  point 3.20 0.2889;
  point 3.30 0.2838;
  point 3.40 0.2790;
  point 3.50 0.2745;
  point 3.60 0.2703;
  point 3.70 0.2662;
  point 3.80 0.2624;
  point 3.90 0.2588;
  point 4.00 0.2553;
  point 4.20 0.2488;
  point 4.40 0.2429;
  point 4.60 0.2376;
  point 4.80 0.2326;
  point 5.00 0.2280
].

Definition g5Curve : result (list (CurvePoint.t F)) := calculateCurve g5Table.

Definition g6Table : list (DataPoint.t F) := [
  point 0.00 0.2617;
  point 0.05 0.2553;
  point 0.10 0.2491;
  point 0.15 0.2432;
  point 0.20 0.2376;
  point 0.25 0.2324;
  point 0.30 0.2278;
  point 0.35 0.2238;
  point 0.40 0.2205;
  point 0.45 0.2177;
  point 0.50 0.2155;
  point 0.55 0.2138;
  point 0.60 0.2126;
  point 0.65 0.2121;
  point 0.70 0.2122;
  point 0.75 0.2132;
  point 0.80 0.2154;
  point 0.85 0.2194;
  point 0.875 0.2229;
  point 0.90 0.2297;
  point 0.925 0.2449;
  point 0.95 0.2732;
  point 0.975 0.3141;
  point 1.0 0.3597;
  point 1.025 0.3994;
  point 1.05 0.4261;
  point 1.075 0.4402;
  point 1.10 0.4465;
  point 1.125 0.4490;
  point 1.15 0.4497;
  point 1.175 0.4494;
  point 1.20 0.4482;
  point 1.225 0.4464;
  point 1.25 0.4441;
  point 1.30 0.4390;
  point 1.35 0.4336;
  point 1.40 0.4279;
  point 1.45 0.4221;
  point 1.50 0.4162;
  point 1.55 0.4102;
  point 1.60 0.4042;
  point 1.65 0.3981;
  point 1.70 0.3919;
  point 1.75 0.3855;
  point 1.80 0.3788;
  point 1.85 0.3721;
  point 1.90 0.3652;
  point 1.95 0.3583;
  point 2.00 0.3515;
  point 2.05 0.3447;
  point 2.10 0.3381;
  point 2.15 0.3314;
  point 2.20 0.3249;
  point 2.25 0.3185;
  point 2.30 0.3122;
  point 2.35 0.3060;
  point 2.40 0.3000;
  point 2.45 0.2941;
  point 2.50 0.2883;
  point 2.60 0.2772;
  point 2.70 0.2668;
  point 2.80 0.2574;
  point 2.90 0.2487;
  point 3.00 0.2407;
  point 3.10 0.2333;
  point 3.20 0.2265;
  point 3.30 0.2202;
  point 3.40 0.2144;
  point 3.50 0.2089;
  point 3.60 0.2039;
  point 3.70 0.1991;
  point 3.80 0.1947;
  point 3.90 0.1905;
  point 4.00 0.1866;
  point 4.20 0.1794;
  point 4.40 0.1730;
  point 4.60 0.1673;
  point 4.80 0.1621;
  point 5.00 0.1574
].

Definition g6Curve : result (list (CurvePoint.t F)) := calculateCurve g6Table.

Definition g8Table : list (DataPoint.t F) := [
  point 0.00 0.2105;
  point 0.05 0.2105;
  point 0.10 0.2104;
  point 0.15 0.2104;
  point 0.20 0.2103;
  point 0.25 0.2103;
  point 0.30 0.2103;
  point 0.35 0.2103;
  point 0.40 0.2103;
  point 0.45 0.2102;
  point 0.50 0.2102;
  point 0.55 0.2102;
  point 0.60 0.2102;
  point 0.65 0.2102;
  point 0.70 0.2103;
  point 0.75 0.2103;
  point 0.80 0.2104;
  point 0.825 0.2104;
  point 0.85 0.2105;
  point 0.875 0.2106;
  point 0.90 0.2109;
  point 0.925 0.2183;
  point 0.95 0.2571;
  point 0.975 0.3358;
  point 1.0 0.4068;
  point 1.025 0.4378;
  point 1.05 0.4476;
  point 1.075 0.4493;
  point 1.10 0.4477;
  point 1.125 0.4450;
  point 1.15 0.4419;
  point 1.20 0.4353;
  point 1.25 0.4283;
  point 1.30 0.4208;
  point 1.35 0.4133;
  point 1.40 0.4059;
  point 1.45 0.3986;
  point 1.50 0.3915;
  point 1.55 0.3845;
  point 1.60 0.3777;
  point 1.65 0.3710;
  point 1.70 0.3645;
  point 1.75 0.3581;
  point 1.80 0.3519;
  point 1.85 0.3458;
  point 1.90 0.3400;
  point 1.95 0.3343;
  point 2.00 0.3288;
  point 2.05 0.3234;
  point 2.10 0.3182;
  point 2.15 0.3131;
  point 2.20 0.3081;
  point 2.25 0.3032;
  point 2.30 0.2983;
  point 2.35 0.2937;
  point 2.40 0.2891;
  point 2.45 0.2845;
  point 2.50 0.2802;
  point 2.60 0.2720;
  point 2.70 0.2642;
  point 2.80 0.2569;
  point 2.90 0.2499;
  point 3.00 0.2432;
  point 3.10 0.2368;
  point 3.20 0.2308;
  point 3.30 0.2251;
  point 3.40 0.2197;
  point 3.50 0.2147;
  point 3.60 0.2101;
  point 3.70 0.2058;
  point 3.80 0.2019;
  point 3.90 0.1983;
  point 4.00 0.1950;
  point 4.20 0.1890;
  point 4.40 0.1837;
  point 4.60 0.1791;
  point 4.80 0.1750;
  point 5.00 0.1713
].

Definition g8Curve : result (list (CurvePoint.t F)) := calculateCurve g8Table.

Definition gITable : list (DataPoint.t F) := [
  point 0.00 0.2282;
  point 0.05 0.2282;
  point 0.10 0.2282;
  point 0.15 0.2282;
  point 0.20 0.2282;
  point 0.25 0.2282;
  point 0.30 0.2282;
  point 0.35 0.2282;
  point 0.40 0.2282;
  point 0.45 0.2282;
  point 0.50 0.2282;
  point 0.55 0.2282;
  point 0.60 0.2282;
  point 0.65 0.2282;
  point 0.70 0.2282;
  point 0.725 0.2353;
  point 0.75 0.2434;
  point 0.775 0.2515;
  point 0.80 0.2596;
  point 0.825 0.2677;
  point 0.85 0.2759;
  point 0.875 0.2913;
  point 0.90 0.3170;
  point 0.925 0.3442;
  point 0.95 0.3728;
  point 1.0 0.4349;
  point 1.05 0.5034;
  point 1.075 0.5402;
  point 1.10 0.5756;
  point 1.125 0.5887;
  point 1.15 0.6018;
  point 1.175 0.6149;
  point 1.20 0.6279;
  point 1.225 0.6418;
  point 1.25 0.6423;
  point 1.30 0.6423;
  point 1.35 0.6423;
  point 1.40 0.6423;
  point 1.45 0.6423;
  point 1.50 0.6423;
  point 1.55 0.6423;
  point 1.60 0.6423;
  point 1.625 0.6407;
  point 1.65 0.6378;
  point 1.70 0.6321;
  point 1.75 0.6266;
  point 1.80 0.6213;
  point 1.85 0.6163;
  point 1.90 0.6113;
  point 1.95 0.6066;
  point 2.00 0.6020;
  point 2.05 0.5976;
  point 2.10 0.5933;
  point 2.15 0.5891;
  point 2.20 0.5850;
  point 2.25 0.5811;
  point 2.30 0.5773;
  point 2.35 0.5733;
  point 2.40 0.5679;
  point 2.45 0.5626;
  point 2.50 0.5576;
  point 2.60 0.5478;
  point 2.70 0.5386;
  point 2.80 0.5298;
  point 2.90 0.5215;
  point 3.00 0.5136;
  point 3.10 0.5061;
  point 3.20 0.4989;
  point 3.30 0.4921;
  point 3.40 0.4855;
  point 3.50 0.4792;
  point 3.60 0.4732;
  point 3.70 0.4674;
  point 3.80 0.4618;
  point 3.90 0.4564;
  point 4.00 0.4513;
  point 4.20 0.4415;
  point 4.40 0.4323;
  point 4.60 0.4238;
  point 4.80 0.4157;
  point 5.00 0.4082
].

Definition gICurve : result (list (CurvePoint.t F)) := calculateCurve gITable.

(** [var gSTable = gITable // tables are the same] *)
Definition gSTable : list (DataPoint.t F) := gITable.

Definition gSCurve : result (list (CurvePoint.t F)) := calculateCurve gSTable.

(** *** Ballistic coefficient *)

(** The closure over a package-level table and its curve. *)
Definition byCurve (table : list (DataPoint.t F))
    (curve : result (list (CurvePoint.t F))) : dragFunction F :=
  fun mach => c ← curve; calculateByCurve table c mach.

Definition dragFunctionFactory (dragTable : byte) : result (dragFunction F) :=
  if Byte.eqb dragTable DragTableG1 then Ok (byCurve g1Table g1Curve)
  else if Byte.eqb dragTable DragTableG2 then Ok (byCurve g2Table g2Curve)
  else if Byte.eqb dragTable DragTableG5 then Ok (byCurve g5Table g5Curve)
  else if Byte.eqb dragTable DragTableG6 then Ok (byCurve g6Table g6Curve)
  else if Byte.eqb dragTable DragTableG7 then Ok (byCurve g7Table g7Curve)
  else if Byte.eqb dragTable DragTableG8 then Ok (byCurve g8Table g8Curve)
  else if Byte.eqb dragTable DragTableGI then Ok (byCurve gITable gICurve)
  else if Byte.eqb dragTable DragTableGS then Ok (byCurve gSTable gSCurve)
  else Panic "unknown drag table type".

(** [fmt.Errorf("... %d", dragTable)] *)
Definition unknownDragTable (dragTable : byte) : string :=
  "ballisticCoefficient: Unknown drag table "
  ++ NilEmpty.string_of_uint (N.to_uint (Byte.to_N dragTable)).

Definition CreateBallisticCoefficient (value : F) (dragTable : byte)
  : result (BallisticCoefficient.t F) :=
  if byte_ltb dragTable DragTableG1 then Err (unknownDragTable dragTable)
  else if value <=? fconst 0 then
    Err "ballisticCoefficient: Drag coefficient must be greater than zero"
  else
    drag ← dragFunctionFactory dragTable;
    Ok (BallisticCoefficient.mk value dragTable drag).

Definition Value (v : BallisticCoefficient.t F) : F := BallisticCoefficient.value v.

Definition Table (v : BallisticCoefficient.t F) : byte := BallisticCoefficient.table v.

Definition Drag (v : BallisticCoefficient.t F) (mach : F) : result F :=
  d ← BallisticCoefficient.drag v mach;
  Ok (d * fconst 2.08551e-04 / BallisticCoefficient.value v).

End Drag.

(** ** Properties of tables and curves, as executable checks *)

Section Checks.
Context {F : Type} `{Float64 F}.
Local Open Scope f64_scope.

(** The eight reference tables, in the order of the identifiers. *)
Definition referenceTables : list (list (DataPoint.t F)) :=
  [g1Table; g2Table; g5Table; g6Table; g7Table; g8Table; gSTable; gITable].

(** The custom table of the repository's test [TestCustomCurve]; its
    literals are written [{B: ..., A: ...}]. *)
Definition customTable : list (DataPoint.t F) := [
  point 0 0.119;
  point 0.7 0.119;
  point 0.85 0.12;
  point 0.87 0.122;
  point 0.9 0.126;
  point 0.93 0.148;
  point 0.95 0.182
].

(** Three samples whose Mach values are one millionth apart. *)
Definition closeMachTable : list (DataPoint.t F) := [
  point 0.9 0.1;
  point 0.900001 0.2;
  point 0.900002 0.4
].

(** Three samples of which the first two have the same Mach. *)
Definition repeatedMachTable : list (DataPoint.t F) := [
  point 1 2;
  point 1 3;
  point 2 5
].

(** Mach values strictly increasing along the table. *)
Definition increasing (data : list (DataPoint.t F)) : Prop :=
  forall (i : nat) (p q : DataPoint.t F),
    data !! i = Some p -> data !! S i = Some q ->
    (DataPoint.A p <? DataPoint.A q) = true.

Fixpoint increasingb (data : list (DataPoint.t F)) : bool :=
  match data with
  | p :: (q :: _) as rest => (DataPoint.A p <? DataPoint.A q) && increasingb rest
  | _ => true
  end.

(** [|x - y| <= tol], without an absolute value. *)
Definition within (tol x y : F) : bool := (x - y <=? tol) && (y - x <=? tol).

(** Evaluating at the Mach of sample [p] gives the coefficient of [p]. *)
Definition reproduces (tol : F) (data : list (DataPoint.t F))
    (curve : list (CurvePoint.t F)) (p : DataPoint.t F) : Prop :=
  exists v, calculateByCurve data curve (DataPoint.A p) = Ok v
            /\ within tol v (DataPoint.B p) = true.

Definition reproducesb (tol : F) (data : list (DataPoint.t F))
    (curve : list (CurvePoint.t F)) (p : DataPoint.t F) : bool :=
  match calculateByCurve data curve (DataPoint.A p) with
  | Ok v => within tol v (DataPoint.B p)
  | _ => false
  end.

Definition fitReproducesb (tol : F) (data : list (DataPoint.t F)) : bool :=
  match calculateCurve data with
  | Ok curve => forallb (reproducesb tol data curve) data
  | _ => false
  end.

(** Segments [i] and [i+1] agree at the Mach of both samples they share,
    the samples [i] and [i+1]. *)
Definition agreeAt (tol : F) (s s' : CurvePoint.t F) (p : DataPoint.t F) : bool :=
  within tol (evalSegment s (DataPoint.A p)) (evalSegment s' (DataPoint.A p)).

Definition adjacentAgreeb (tol : F) (data : list (DataPoint.t F))
    (curve : list (CurvePoint.t F)) (i : nat) : bool :=
  match curve !! i, curve !! S i, data !! i, data !! S i with
  | Some s, Some s', Some p, Some q => agreeAt tol s s' p && agreeAt tol s s' q
  | _, _, _, _ => false
  end.

(** The interior segment [i] takes, at the Mach of the samples [i-1], [i]
    and [i+1], their coefficients. *)
Definition interpolatesb (tol : F) (data : list (DataPoint.t F))
    (curve : list (CurvePoint.t F)) (i : nat) : bool :=
  match curve !! i, data !! (i - 1)%nat, data !! i, data !! S i with
  | Some s, Some p1, Some p2, Some p3 =>
      within tol (evalSegment s (DataPoint.A p1)) (DataPoint.B p1)
      && within tol (evalSegment s (DataPoint.A p2)) (DataPoint.B p2)
      && within tol (evalSegment s (DataPoint.A p3)) (DataPoint.B p3)
  | _, _, _, _ => false
  end.

(** [|m - a| < |m - b|] *)
Definition distance (x y : F) : F := if x <? y then y - x else x - y.

Definition nearer (m a b : F) : bool := distance m a <? distance m b.

End Checks.

(** In exact arithmetic: the segment [s] passes through the sample [p]. *)
Definition passes (s : CurvePoint.t Q) (p : DataPoint.t Q) : Prop :=
  (evalSegment s (DataPoint.A p) == DataPoint.B p)%Q.

Definition sameCoefficients (s s' : CurvePoint.t Q) : Prop :=
  (CurvePoint.A s == CurvePoint.A s')%Q
  /\ (CurvePoint.B s == CurvePoint.B s')%Q
  /\ (CurvePoint.C s == CurvePoint.C s')%Q.

(** The invariant of the search: the sample at [lo] is below [mach]
    unless [lo] is still 0, and the sample at [hi] is not below [mach]
    unless [hi] is still the initial bound [top]. *)
Definition brackets (data : list (DataPoint.t Q)) (mach : Q) (top lo hi : Z) : Prop :=
  (lo = 0%Z \/ exists d, data !! Z.to_nat lo = Some d /\ (DataPoint.A d < mach)%Q)
  /\ (hi = top \/ exists d, data !! Z.to_nat hi = Some d /\ (mach <= DataPoint.A d)%Q).

(** In binary64.  [spec_float] also has pairs of a mantissa and an
    exponent that no float64 holds (a mantissa of more than 53 bits, or
    one that is not normalised); [valid] is the Standard Library's test
    for the values a float64 can hold: the zeros, the infinities, NaN and
    the normalised and subnormal numbers. *)
Definition valid (x : b64) : bool := valid_binary 53 1024 x.

(** A float64 that is a number: a zero, or normalised or subnormal. *)
Definition finite (x : b64) : bool :=
  match x with
  | S754_zero _ => true
  | S754_finite _ _ _ => valid x
  | _ => false
  end.

Definition plusZero : b64 := S754_zero false.

(** Every Mach of the table is a number. *)
Definition finiteTable (data : list (DataPoint.t b64)) : Prop :=
  forall (j : nat) d, data !! j = Some d -> finite (DataPoint.A d) = true.

Definition finiteTableb (data : list (DataPoint.t b64)) : bool :=
  forallb (fun d => finite (DataPoint.A d)) data.

(** The invariant of the search in binary64, on a table of increasing
    Mach: unless [lo] is still 0 every sample up to [lo] is below [mach],
    and unless [hi] is still the initial bound [top] no sample from [hi]
    on is below [mach]. *)
Definition separates (data : list (DataPoint.t b64)) (mach : b64) (top lo hi : Z) : Prop :=
  (0 <= lo)%Z
  /\ (lo = 0%Z
      \/ forall (j : nat) d, (j <= Z.to_nat lo)%nat -> data !! j = Some d ->
                             fltb (DataPoint.A d) mach = true)
  /\ (hi = top
      \/ forall (j : nat) d, (Z.to_nat hi <= j)%nat -> data !! j = Some d ->
                             fltb (DataPoint.A d) mach = false).

(** * Theorems *)

(** ** Slices and loops *)

Section SliceLemmas.
Context {A : Type}.
Implicit Types (l : list A) (i : Z) (x : A).

Lemma index_Ok l i x :
  index l i = Ok x <-> 0 <= i /\ l !! Z.to_nat i = Some x.
Proof.
  unfold index. destruct (Z.leb_spec 0 i) as [Hi|Hi].
  - destruct (l !! Z.to_nat i) eqn:E; split.
    + intros [= ->]. auto.
    + intros [_ [= ->]]. reflexivity.
    + discriminate.
    + intros [_ [=]].
  - split; [discriminate | lia].
Qed.

Lemma index_in_range l i :
  0 <= i < Z.of_nat (length l) ->
  exists x, index l i = Ok x /\ l !! Z.to_nat i = Some x.
Proof.
  intros Hi. destruct (lookup_lt_is_Some_2 l (Z.to_nat i)) as [x Hx]; [lia|].
  exists x. split; [apply index_Ok|]; auto with lia.
Qed.

Lemma index_nat l (n : nat) x :
  l !! n = Some x -> index l (Z.of_nat n) = Ok x.
Proof. intros Hx. apply index_Ok. rewrite Nat2Z.id. auto with lia. Qed.

Lemma store_in_range l i x :
  0 <= i < Z.of_nat (length l) -> store l i x = Ok (<[Z.to_nat i := x]> l).
Proof.
  intros [H0 H1]. unfold store.
  destruct (Z.leb_spec 0 i); [|lia]. destruct (Z.ltb_spec i (Z.of_nat (length l))); [|lia].
  reflexivity.
Qed.

End SliceLemmas.

Section Generic.
Context {F : Type} `{Float64 F}.
Local Open Scope f64_scope.
Implicit Types (data : list (DataPoint.t F)) (curve : list (CurvePoint.t F)) (mach : F).

(** *** The binary search *)

(** An invariant kept by both branches of the loop body holds of the
    interval the loop returns, and the loop does return. *)
Lemma searchLoop_invariant (I : Z -> Z -> Prop) data mach :
  (forall lo hi d, I lo hi -> (1 < hi - lo)%Z ->
     data !! Z.to_nat ((hi + lo) / 2) = Some d ->
     if DataPoint.A d <? mach then I ((hi + lo) / 2)%Z hi else I lo ((hi + lo) / 2)%Z) ->
  forall fuel mlo mhi,
    (0 <= mlo)%Z -> (mhi < Z.of_nat (length data))%Z ->
    (mhi - mlo <= Z.of_nat fuel)%Z -> I mlo mhi ->
    exists lo hi, searchLoop fuel data mach mlo mhi = Ok (lo, hi)
                  /\ I lo hi /\ (mlo <= lo)%Z /\ (hi <= mhi)%Z
                  /\ (hi - lo <= 1)%Z /\ (mlo <= mhi -> lo <= hi)%Z.
Proof.
  intros Hstep. induction fuel as [|fuel IH]; intros mlo mhi Hlo Hhi Hfuel HI; simpl.
  - destruct (Z.gtb_spec (mhi - mlo) 1); [lia|].
    exists mlo, mhi. repeat split; auto with lia.
  - destruct (Z.gtb_spec (mhi - mlo) 1) as [Hw|Hw].
    + assert (Hmid : (mlo < (mhi + mlo) / 2 < mhi)%Z).
      { clear -Hw. Z.div_mod_to_equations. lia. }
      destruct (index_in_range data ((mhi + mlo) / 2)) as (d & -> & Hd); [lia|].
      simpl. specialize (Hstep mlo mhi d HI Hw Hd).
      destruct (DataPoint.A d <? mach).
      * destruct (IH ((mhi + mlo) / 2)%Z mhi) as (lo & hi & ? & ? & ? & ? & ? & ?);
          [lia..|assumption|].
        exists lo, hi. repeat split; auto with lia.
      * destruct (IH mlo ((mhi + mlo) / 2)%Z) as (lo & hi & ? & ? & ? & ? & ? & ?);
          [lia..|assumption|].
        exists lo, hi. repeat split; auto with lia.
    + exists mlo, mhi. repeat split; auto with lia.
Qed.

(** What [selectSegment] returns, for any invariant [I] of the search. *)
Lemma selectSegment_invariant (I : Z -> Z -> Prop) data curve mach :
  (forall lo hi d, I lo hi -> (1 < hi - lo)%Z ->
     data !! Z.to_nat ((hi + lo) / 2) = Some d ->
     if DataPoint.A d <? mach then I ((hi + lo) / 2)%Z hi else I lo ((hi + lo) / 2)%Z) ->
  (2 <= length curve)%nat -> (length curve <= S (length data))%nat ->
  I 0%Z (Z.of_nat (length curve) - 2)%Z ->
  exists lo hi dlo dhi,
    I lo hi /\ (0 <= lo <= hi)%Z /\ (hi <= Z.of_nat (length curve) - 2)%Z
    /\ (hi - lo <= 1)%Z
    /\ data !! Z.to_nat lo = Some dlo /\ data !! Z.to_nat hi = Some dhi
    /\ selectSegment data curve mach
       = Ok (if (DataPoint.A dhi - mach) >? (mach - DataPoint.A dlo) then lo else hi).
Proof.
  intros Hstep Hn Hlen HI. unfold selectSegment.
  destruct (searchLoop_invariant I data mach Hstep
              (Z.to_nat (Z.of_nat (length curve) - 2 - 0)) 0%Z
              (Z.of_nat (length curve) - 2)%Z)
    as (lo & hi & -> & HI' & Hlo & Hhi & Hw & Hle); [lia..|assumption|].
  specialize (Hle ltac:(lia)). simpl.
  destruct (index_in_range data hi) as (dhi & -> & Hdhi); [lia|].
  destruct (index_in_range data lo) as (dlo & -> & Hdlo); [lia|].
  simpl. exists lo, hi, dlo, dhi.
  repeat split; auto with lia.
  destruct (_ <? _); reflexivity.
Qed.

Lemma selectSegment_bounds data curve mach :
  (2 <= length curve)%nat -> (length curve <= S (length data))%nat ->
  exists m, selectSegment data curve mach = Ok m
            /\ (0 <= m <= Z.of_nat (length curve) - 2)%Z.
Proof.
  intros Hn Hlen.
  destruct (selectSegment_invariant (fun _ _ => True) data curve mach)
    as (lo & hi & dlo & dhi & _ & ? & ? & ? & _ & _ & ->); auto.
  { intros. destruct (_ <? _); exact Logic.I. }
  destruct (_ <? _); eauto with lia.
Qed.

(** [selectSegment] reads [curve] only through its length. *)
Lemma selectSegment_length data curve curve' mach :
  length curve' = length curve ->
  selectSegment data curve' mach = selectSegment data curve mach.
Proof. intros E. unfold selectSegment. rewrite E. reflexivity. Qed.

(** On a table of [n >= 2] samples with a curve of the same length the
    evaluation returns the value of a segment of index in [0, n-2]. *)
Lemma calculateByCurve_returns data curve mach :
  length data = length curve -> (2 <= length curve)%nat ->
  exists m c,
    selectSegment data curve mach = Ok m
    /\ (0 <= m <= Z.of_nat (length curve) - 2)%Z
    /\ curve !! Z.to_nat m = Some c
    /\ calculateByCurve data curve mach = Ok (evalSegment c mach).
Proof.
  intros Hlen Hn.
  destruct (selectSegment_bounds data curve mach) as (m & Hm & Hr); [lia..|].
  destruct (index_in_range curve m) as (c & Hc & Hc'); [lia|].
  exists m, c. unfold calculateByCurve.
  split; [exact Hm|]. split; [exact Hr|]. split; [exact Hc'|].
  rewrite Hm. simpl. rewrite Hc. reflexivity.
Qed.

(** C10: for a table of [n >= 2] samples and a curve of the same length,
    at every Mach input (finite or not) [calculateByCurve] returns, every
    slice access being in range; the segment it evaluates has an index in
    [0, n-2]; and the last segment, of index [n-1], is never read:
    overwriting it changes no result. *)
Theorem calculateByCurve_in_bounds data curve mach :
  length data = length curve -> (2 <= length curve)%nat ->
  exists m c,
    selectSegment data curve mach = Ok m
    /\ (0 <= m <= Z.of_nat (length curve) - 2)%Z
    /\ curve !! Z.to_nat m = Some c
    /\ calculateByCurve data curve mach = Ok (evalSegment c mach)
    /\ forall last : CurvePoint.t F,
         calculateByCurve data (<[(length curve - 1)%nat := last]> curve) mach
         = calculateByCurve data curve mach.
Proof.
  intros Hlen Hn.
  destruct (calculateByCurve_returns data curve mach Hlen Hn)
    as (m & c & Hm & Hr & Hc & Hv).
  exists m, c. repeat split; try assumption; try lia.
  intros last. rewrite Hv. unfold calculateByCurve.
  rewrite (selectSegment_length data curve) by apply length_insert.
  rewrite Hm. simpl.
  assert (Hc' : index (<[(length curve - 1)%nat := last]> curve) m = Ok c).
  { apply index_Ok. split; [lia|].
    rewrite list_lookup_insert_ne by lia. exact Hc. }
  rewrite Hc'. reflexivity.
Qed.

(** *** The fitter *)

Lemma fitInterior_Ok data curve (i : nat) p1 p2 p3 :
  data !! (i - 1)%nat = Some p1 -> data !! i = Some p2 -> data !! S i = Some p3 ->
  (1 <= i < length curve)%nat ->
  fitInterior data (Z.of_nat i) curve = Ok (<[i := fitThree p1 p2 p3]> curve).
Proof.
  intros H1 H2 H3 Hi. unfold fitInterior.
  replace (Z.of_nat i - 1)%Z with (Z.of_nat (i - 1)) by lia.
  replace (Z.of_nat i + 1)%Z with (Z.of_nat (S i)) by lia.
  rewrite (index_nat _ _ _ H1), (index_nat _ _ _ H2), (index_nat _ _ _ H3). simpl.
  rewrite store_in_range by lia. rewrite Nat2Z.id. reflexivity.
Qed.

(** The loop over the interior samples [start .. start+k-1] writes the
    three-point fit at each of them and nothing else. *)
Lemma forM_fitInterior data : forall (k start : nat) curve,
  (1 <= start)%nat -> (start + k < length data)%nat -> length curve = length data ->
  exists curve',
    forM (fitInterior data) (seqZ (Z.of_nat start) (Z.of_nat k)) curve = Ok curve'
    /\ length curve' = length curve
    /\ (forall j : nat, (j < start \/ start + k <= j)%nat -> curve' !! j = curve !! j)
    /\ (forall (i : nat) p1 p2 p3, (start <= i < start + k)%nat ->
          data !! (i - 1)%nat = Some p1 -> data !! i = Some p2 -> data !! S i = Some p3 ->
          curve' !! i = Some (fitThree p1 p2 p3)).
Proof.
  induction k as [|k IH]; intros start curve Hs Hk Hlen.
  - exists curve. simpl. repeat split; auto. intros; lia.
  - rewrite seqZ_cons by lia. simpl.
    destruct (lookup_lt_is_Some_2 data (start - 1)) as [p1 Hp1]; [lia|].
    destruct (lookup_lt_is_Some_2 data start) as [p2 Hp2]; [lia|].
    destruct (lookup_lt_is_Some_2 data (S start)) as [p3 Hp3]; [lia|].
    rewrite (fitInterior_Ok data curve start p1 p2 p3) by (auto; lia). simpl.
    replace (Z.succ (Z.of_nat start)) with (Z.of_nat (S start)) by lia.
    replace (Z.pred (Z.of_nat (S k))) with (Z.of_nat k) by lia.
    destruct (IH (S start) (<[start := fitThree p1 p2 p3]> curve))
      as (curve' & -> & Hlen' & Hout & Hin); [lia|lia|rewrite length_insert; lia|].
    exists curve'. rewrite length_insert in Hlen'. repeat split; auto.
    + intros j Hj. rewrite Hout by lia. apply list_lookup_insert_ne. lia.
    + intros i q1 q2 q3 Hi Hq1 Hq2 Hq3.
      destruct (decide (i = start)) as [->|Hne].
      * rewrite Hout by lia. rewrite list_lookup_insert_eq by lia.
        congruence.
      * apply Hin; auto. lia.
Qed.

(** What [calculateCurve] returns on a table of at least two samples. *)
Lemma calculateCurve_spec data :
  (2 <= length data)%nat ->
  exists curve,
    calculateCurve data = Ok curve
    /\ length curve = length data
    /\ (forall d0 d1, data !! 0%nat = Some d0 -> data !! 1%nat = Some d1 ->
          curve !! 0%nat = Some (firstSegment d0 d1))
    /\ (forall (i : nat) p1 p2 p3, (1 <= i)%nat -> (S i < length data)%nat ->
          data !! (i - 1)%nat = Some p1 -> data !! i = Some p2 -> data !! S i = Some p3 ->
          curve !! i = Some (fitThree p1 p2 p3))
    /\ (forall dk dl, data !! (length data - 2)%nat = Some dk ->
          data !! (length data - 1)%nat = Some dl ->
          curve !! (length data - 1)%nat = Some (lastSegment dk dl)).
Proof.
  intros Hn. unfold calculateCurve.
  set (zero := CurvePoint.mk (fconst 0) (fconst 0) (fconst 0)).
  destruct (lookup_lt_is_Some_2 data 0) as [d0 Hd0]; [lia|].
  destruct (lookup_lt_is_Some_2 data 1) as [d1 Hd1]; [lia|].
  destruct (lookup_lt_is_Some_2 data (length data - 2)) as [dk Hdk]; [lia|].
  destruct (lookup_lt_is_Some_2 data (length data - 1)) as [dl Hdl]; [lia|].
  assert (E1 : index data 1 = Ok d1) by (apply index_Ok; auto with lia).
  assert (E0 : index data 0 = Ok d0) by (apply index_Ok; auto with lia).
  rewrite E1. simpl. rewrite E0. simpl.
  rewrite store_in_range by (rewrite length_replicate; lia). simpl.
  change (Z.to_nat 0) with 0%nat.
  set (curve0 := <[0%nat := firstSegment d0 d1]> (replicate (length data) zero)).
  assert (Hlen0 : length curve0 = length data).
  { unfold curve0. rewrite length_insert, length_replicate. reflexivity. }
  replace (Z.of_nat (length data) - 2)%Z with (Z.of_nat (length data - 2)) by lia.
  destruct (forM_fitInterior data (length data - 2) 1 curve0)
    as (curve1 & Hloop & Hlen1 & Hout & Hin); [lia..|assumption|].
  change (Z.of_nat 1) with 1%Z in Hloop. rewrite Hloop. simpl.
  replace (Z.of_nat (length data) - 1)%Z with (Z.of_nat (length data - 1)) by lia.
  rewrite (index_nat data _ dl Hdl). simpl.
  rewrite (index_nat data _ dk Hdk). simpl.
  rewrite store_in_range by lia. rewrite Nat2Z.id.
  eexists. split; [reflexivity|]. repeat split.
  - rewrite length_insert. lia.
  - intros e0 e1 He0 He1. rewrite list_lookup_insert_ne by lia.
    rewrite Hout by lia. unfold curve0.
    rewrite list_lookup_insert_eq by (rewrite length_replicate; lia). congruence.
  - intros i p1 p2 p3 Hi1 Hi2 Hp1 Hp2 Hp3.
    rewrite list_lookup_insert_ne by lia. apply Hin; auto. lia.
  - intros ek el Hek Hel. rewrite list_lookup_insert_eq by lia. congruence.
Qed.

(** *** Termination and short tables *)

(** The fuel given to the search always suffices. *)
Lemma searchLoop_fuel data mach : forall fuel mlo mhi,
  (mhi - mlo <= Z.of_nat fuel)%Z -> searchLoop fuel data mach mlo mhi <> OutOfFuel.
Proof.
  induction fuel as [|fuel IH]; intros mlo mhi Hfuel; simpl.
  - destruct (Z.gtb_spec (mhi - mlo) 1); [lia|discriminate].
  - destruct (Z.gtb_spec (mhi - mlo) 1) as [Hw|Hw]; [|discriminate].
    assert (Hmid : (mlo < (mhi + mlo) / 2 < mhi)%Z).
    { clear -Hw. Z.div_mod_to_equations. lia. }
    destruct (index data ((mhi + mlo) / 2)) as [d| | |] eqn:E; simpl; try discriminate.
    + destruct (DataPoint.A d <? mach); apply IH; lia.
    + unfold index in E. destruct (0 <=? (mhi + mlo) / 2)%Z; [|discriminate].
      destruct (data !! Z.to_nat ((mhi + mlo) / 2)); discriminate.
Qed.

Lemma index_fuel {A : Type} (l : list A) (i : Z) : index l i <> OutOfFuel.
Proof.
  unfold index. destruct (0 <=? i)%Z; [|discriminate].
  destruct (l !! Z.to_nat i); discriminate.
Qed.

Lemma store_fuel {A : Type} (l : list A) (i : Z) (x : A) : store l i x <> OutOfFuel.
Proof. unfold store. destruct (_ && _); discriminate. Qed.

(** [calculateByCurve] never runs out of fuel, whatever the slices. *)
Lemma calculateByCurve_fuel data curve mach :
  calculateByCurve data curve mach <> OutOfFuel.
Proof.
  unfold calculateByCurve, selectSegment.
  pose proof (searchLoop_fuel data mach
                (Z.to_nat (Z.of_nat (length curve) - 2 - 0)) 0%Z
                (Z.of_nat (length curve) - 2)%Z ltac:(lia)) as Hs.
  destruct (searchLoop _ data mach 0%Z _) as [[lo hi]| | |]; simpl;
    try discriminate; [|congruence].
  pose proof (index_fuel data hi) as Hhi. destruct (index data hi); simpl;
    try discriminate; [|congruence].
  pose proof (index_fuel data lo) as Hlo. destruct (index data lo); simpl;
    try discriminate; [|congruence].
  destruct (_ <? _); simpl.
  - pose proof (index_fuel curve lo). destruct (index curve lo); simpl;
      try discriminate; congruence.
  - pose proof (index_fuel curve hi). destruct (index curve hi); simpl;
      try discriminate; congruence.
Qed.

(** With fewer than two samples the fitter panics on [dataPoints[1]]. *)
Lemma calculateCurve_short data :
  (length data < 2)%nat -> calculateCurve data = Panic index_out_of_range.
Proof.
  intros Hn. unfold calculateCurve.
  assert (E : index data 1 = Panic index_out_of_range).
  { unfold index. simpl. rewrite lookup_ge_None_2; [reflexivity|].
    change (Pos.to_nat 1) with 1%nat. lia. }
  rewrite E. reflexivity.
Qed.

(** *** The drag functions *)

Lemma referenceTables_length table :
  In table (@referenceTables F _) -> (2 <= length table)%nat.
Proof.
  unfold referenceTables. simpl.
  intros [<-|[<-|[<-|[<-|[<-|[<-|[<-|[<-|[]]]]]]]]]; vm_compute; lia.
Qed.

(** A closure over a table of at least two samples returns at every Mach. *)
Lemma byCurve_total table mach :
  (2 <= length table)%nat ->
  exists curve d,
    calculateCurve table = Ok curve /\ length curve = length table
    /\ calculateByCurve table curve mach = Ok d
    /\ byCurve table (calculateCurve table) mach = Ok d.
Proof.
  intros Hn.
  destruct (calculateCurve_spec table Hn) as (curve & Hc & Hlen & _).
  destruct (calculateByCurve_returns table curve mach) as (m & c & _ & _ & _ & Hv);
    [lia..|].
  exists curve, (evalSegment c mach). unfold byCurve. rewrite Hc. simpl. auto.
Qed.

(** The factory returns for the identifiers 1 to 8, each time the closure
    over one of the reference tables and the curve fitted to it. *)
Lemma dragFunctionFactory_Ok dragTable f :
  dragFunctionFactory dragTable = Ok f ->
  exists table, In table referenceTables /\ f = byCurve table (calculateCurve table).
Proof.
  unfold dragFunctionFactory, referenceTables.
  repeat (destruct (Byte.eqb dragTable _);
          [intros [= <-]; eexists; split; [|reflexivity]; simpl; tauto|]).
  discriminate.
Qed.

(** Every outcome of the constructor: an error for the identifier 0 and,
    the identifier being at least 1, for a value [<= 0]; a panic for an
    identifier above 8 given with an accepted value; otherwise the
    coefficient. *)
Lemma CreateBallisticCoefficient_cases (v : F) dragTable :
  CreateBallisticCoefficient v dragTable
  = if (Byte.to_N dragTable <? 1)%N then Err (unknownDragTable dragTable)
    else if v <=? fconst 0
    then Err "ballisticCoefficient: Drag coefficient must be greater than zero"
    else if (Byte.to_N dragTable <=? 8)%N
    then f ← dragFunctionFactory dragTable; Ok (BallisticCoefficient.mk v dragTable f)
    else Panic "unknown drag table type".
Proof.
  unfold CreateBallisticCoefficient.
  destruct (v <=? fconst 0); destruct dragTable; reflexivity.
Qed.

(** The factory pairs each identifier with the table of its own family
    and the curve fitted to that table. *)
Lemma dragFunctionFactory_family dragTable f :
  dragFunctionFactory dragTable = Ok f ->
  exists table,
    ((dragTable = DragTableG1 /\ table = g1Table)
     \/ (dragTable = DragTableG2 /\ table = g2Table)
     \/ (dragTable = DragTableG5 /\ table = g5Table)
     \/ (dragTable = DragTableG6 /\ table = g6Table)
     \/ (dragTable = DragTableG7 /\ table = g7Table)
     \/ (dragTable = DragTableG8 /\ table = g8Table)
     \/ (dragTable = DragTableGI /\ table = gITable)
     \/ (dragTable = DragTableGS /\ table = gSTable))
    /\ In table referenceTables
    /\ f = byCurve table (calculateCurve table).
Proof.
  unfold dragFunctionFactory, referenceTables.
  repeat (destruct (Byte.eqb dragTable _) eqn:E;
          [apply Byte.byte_dec_bl in E; intros [= <-]; eexists;
           (split; [|split; [|reflexivity]]); simpl; tauto|clear E]).
  discriminate.
Qed.

(** C4: a coefficient constructed from [v] and a table identifier keeps
    [v], which is not [<= 0]; its drag function is the evaluator of its
    own family: the closure over the table that the source names after
    the identifier ([g1Table] for [DragTableG1], ..., [gSTable] for
    [DragTableGS]) and over the curve fitted to that table.  This
    evaluator returns some [d] at every Mach, and [Drag] returns
    [d * 2.08551e-04 / v], the constant being the decimal constant of the
    source converted to float64. *)
Theorem Drag_formula (v : F) dragTable bc mach :
  CreateBallisticCoefficient v dragTable = Ok bc ->
  Value bc = v /\ Table bc = dragTable /\ (v <=? fconst 0) = false
  /\ exists table curve d,
       ((dragTable = DragTableG1 /\ table = g1Table)
        \/ (dragTable = DragTableG2 /\ table = g2Table)
        \/ (dragTable = DragTableG5 /\ table = g5Table)
        \/ (dragTable = DragTableG6 /\ table = g6Table)
        \/ (dragTable = DragTableG7 /\ table = g7Table)
        \/ (dragTable = DragTableG8 /\ table = g8Table)
        \/ (dragTable = DragTableGI /\ table = gITable)
        \/ (dragTable = DragTableGS /\ table = gSTable))
       /\ calculateCurve table = Ok curve
       /\ dragFunctionFactory dragTable = Ok (byCurve table (Ok curve))
       /\ BallisticCoefficient.drag bc = byCurve table (Ok curve)
       /\ calculateByCurve table curve mach = Ok d
       /\ BallisticCoefficient.drag bc mach = Ok d
       /\ Drag bc mach = Ok (d * fconst 2.08551e-04 / v).
Proof.
  unfold CreateBallisticCoefficient.
  destruct (byte_ltb dragTable DragTableG1); [discriminate|].
  destruct (v <=? fconst 0); [discriminate|].
  destruct (dragFunctionFactory dragTable) as [f| | |] eqn:Hf; try discriminate.
  simpl. intros [= <-]. repeat split.
  destruct (dragFunctionFactory_family _ _ Hf) as (table & Hfam & Hin & ->).
  destruct (byCurve_total table mach (referenceTables_length _ Hin))
    as (curve & d & Hc & _ & Hd & Hby).
  exists table, curve, d. simpl. rewrite <- Hc.
  split; [exact Hfam|]. split; [reflexivity|]. split; [reflexivity|].
  split; [reflexivity|]. split; [exact Hd|]. split; [exact Hby|].
  unfold Drag. simpl. rewrite Hby. reflexivity.
Qed.

(** *** The executable checks decide the properties *)

Lemma increasingb_correct data :
  increasingb data = true -> increasing data.
Proof.
  induction data as [|p [|q rest] IH]; intros Hb i a b Ha Hb'.
  - discriminate.
  - destruct i; discriminate.
  - simpl in Hb. apply andb_prop in Hb as [Hpq Hrest].
    destruct i as [|i]; simpl in Ha, Hb'.
    + congruence.
    + apply (IH Hrest i); assumption.
Qed.

Lemma reproducesb_correct (tol : F) data curve (p : DataPoint.t F) :
  reproducesb tol data curve p = true -> reproduces tol data curve p.
Proof.
  unfold reproducesb, reproduces.
  destruct (calculateByCurve data curve (DataPoint.A p)); try discriminate. eauto.
Qed.

Lemma fitReproducesb_correct (tol : F) data :
  fitReproducesb tol data = true ->
  exists curve, calculateCurve data = Ok curve
                /\ Forall (reproduces tol data curve) data.
Proof.
  unfold fitReproducesb. destruct (calculateCurve data) as [curve| | |]; try discriminate.
  intros Hall. exists curve. split; [reflexivity|].
  apply Forall_forall. intros p Hp. apply reproducesb_correct.
  rewrite forallb_forall in Hall. apply Hall. apply list_elem_of_In. exact Hp.
Qed.

End Generic.

(** ** The program in binary64 *)

Section Binary64.
Local Open Scope f64_scope.

(** C8: in each of the eight reference tables the Mach values are strictly
    increasing: the Mach of sample [i] is below the Mach of sample [i+1]. *)
Theorem referenceTables_increasing :
  increasing (@g1Table b64 _) /\ increasing (@g2Table b64 _)
  /\ increasing (@g5Table b64 _) /\ increasing (@g6Table b64 _)
  /\ increasing (@g7Table b64 _) /\ increasing (@g8Table b64 _)
  /\ increasing (@gITable b64 _) /\ increasing (@gSTable b64 _).
Proof. repeat split; apply increasingb_correct; vm_compute; reflexivity. Qed.

(** C2: for each of the eight families, the curve fitted to the family's
    table, evaluated by [calculateByCurve] at the Mach of a sample, gives
    the drag coefficient of that sample within 1e-9; this holds at every
    sample, the first and the last included. *)
Theorem fit_reproduces_samples :
  Forall (fun table : list (DataPoint.t b64) =>
            exists curve, calculateCurve table = Ok curve
                          /\ Forall (reproduces (fconst 1e-9) table curve) table)
         referenceTables.
Proof.
  unfold referenceTables.
  repeat apply Forall_cons_2; try apply Forall_nil_2;
    apply fitReproducesb_correct; vm_compute; reflexivity.
Qed.

(** In binary64 the three interpolation equations hold up to rounding:
    every interior segment of the eight curves is within 1e-9 of its
    three samples. *)
Lemma interior_segments_interpolate :
  Forall (fun table : list (DataPoint.t b64) =>
            exists curve, calculateCurve table = Ok curve
              /\ forallb (interpolatesb (fconst 1e-9) table curve)
                         (seq 1 (length table - 2)) = true)
         referenceTables.
Proof.
  unfold referenceTables.
  repeat apply Forall_cons_2; try apply Forall_nil_2;
    eexists; (split; [vm_compute; reflexivity|]); vm_compute; reflexivity.
Qed.

(** Away from the end of the curve the fit is continuous: in each of the
    eight curves every two adjacent segments [i], [i+1] with [i+1 <= n-2]
    agree within 1e-9 at the Mach of both samples they share. *)
Lemma adjacent_segments_agree :
  Forall (fun table : list (DataPoint.t b64) =>
            exists curve, calculateCurve table = Ok curve
              /\ forallb (adjacentAgreeb (fconst 1e-9) table curve)
                         (seq 0 (length table - 2)) = true)
         referenceTables.
Proof.
  unfold referenceTables.
  repeat apply Forall_cons_2; try apply Forall_nil_2;
    eexists; (split; [vm_compute; reflexivity|]); vm_compute; reflexivity.
Qed.

(** C3, at the G1 table: the last two segments of the fitted curve, of
    indices 77 and 78, do not agree at the samples they share.  At Mach
    4.80 and at Mach 5.00 their values are more than 1e-4 apart: the last
    segment has the secant slope but its intercept is taken from
    [dataPoints[numPoints-1].B] and [dataPoints[numPoints-2].A], two
    different samples, so the line passes through neither. *)
Theorem last_boundary_discontinuous :
  exists curve s s',
    calculateCurve (@g1Table b64 _) = Ok curve
    /\ length curve = 79%nat
    /\ curve !! 77%nat = Some s /\ curve !! 78%nat = Some s'
    /\ g1Table !! 77%nat = Some (point 4.80 0.4990)
    /\ g1Table !! 78%nat = Some (point 5.00 0.4988)
    /\ adjacentAgreeb (fconst 1e-9) g1Table curve 77 = false
    /\ (fconst 1e-4 <? evalSegment s (fconst 4.80) - evalSegment s' (fconst 4.80)) = true
    /\ (fconst 1e-4 <? evalSegment s (fconst 5.00) - evalSegment s' (fconst 5.00)) = true.
Proof.
  do 3 eexists. split; [vm_compute; reflexivity|].
  repeat split; vm_compute; reflexivity.
Qed.

(** The same gap closes every one of the eight curves. *)
Lemma every_curve_ends_in_a_gap :
  Forall (fun table : list (DataPoint.t b64) =>
            exists curve, calculateCurve table = Ok curve
              /\ adjacentAgreeb (fconst 1e-9) table curve (length table - 2) = false)
         referenceTables.
Proof.
  unfold referenceTables.
  repeat apply Forall_cons_2; try apply Forall_nil_2;
    eexists; (split; [vm_compute; reflexivity|]); vm_compute; reflexivity.
Qed.

(** C5, at the G1 table (79 samples) and Mach 5.00: the input is the Mach
    of the last sample, so it is strictly nearer to it than to the sample
    before, of Mach 4.80; the search starts from [mhi = numPoints - 2] and
    the segment selected is 77, not the last one, 78. *)
Theorem nearest_to_last_sample_selects_previous :
  exists curve,
    calculateCurve (@g1Table b64 _) = Ok curve
    /\ length curve = 79%nat
    /\ g1Table !! 77%nat = Some (point 4.80 0.4990)
    /\ g1Table !! 78%nat = Some (point 5.00 0.4988)
    /\ nearer (fconst 5.00) (fconst 5.00) (fconst 4.80) = true
    /\ selectSegment g1Table curve (fconst 5.00) = Ok 77%Z.
Proof.
  eexists. split; [vm_compute; reflexivity|].
  repeat split; vm_compute; reflexivity.
Qed.

(** C6, at the G1 table and Mach 6.00, above the largest sample Mach
    5.00: the evaluation returns, but what it returns is the value of
    segment 77, the quadratic fitted through the last three samples; the
    last segment, 78, is not the one selected, and its value at this Mach
    is another one. *)
Theorem above_range_selects_previous :
  exists curve s s',
    calculateCurve (@g1Table b64 _) = Ok curve
    /\ length curve = 79%nat
    /\ Forall (fun p => (DataPoint.A p <? fconst 6.00) = true) g1Table
    /\ selectSegment g1Table curve (fconst 6.00) = Ok 77%Z
    /\ curve !! 77%nat = Some s /\ curve !! 78%nat = Some s'
    /\ calculateByCurve g1Table curve (fconst 6.00) = Ok (evalSegment s (fconst 6.00))
    /\ within (fconst 1e-9) (evalSegment s (fconst 6.00)) (evalSegment s' (fconst 6.00))
       = false.
Proof.
  do 3 eexists. split; [vm_compute; reflexivity|].
  repeat split; try (vm_compute; reflexivity).
  apply Forall_forall. intros p Hp. apply list_elem_of_In in Hp.
  revert p Hp. apply forallb_forall. vm_compute. reflexivity.
Qed.

(** Below the range the search does reach the boundary segment: at Mach
    -1 every one of the eight curves is evaluated on its segment 0; above
    the range, at Mach 6, on its segment [n-2]. *)
Lemma out_of_range_segments :
  Forall (fun table : list (DataPoint.t b64) =>
            exists curve, calculateCurve table = Ok curve
              /\ selectSegment table curve (fconst (-1)) = Ok 0%Z
              /\ selectSegment table curve (fconst 6)
                 = Ok (Z.of_nat (length table) - 2)%Z)
         referenceTables.
Proof.
  unfold referenceTables.
  repeat apply Forall_cons_2; try apply Forall_nil_2;
    eexists; (split; [vm_compute; reflexivity|]); split; vm_compute; reflexivity.
Qed.

(** C1 fails on the code: for an identifier above 8 given with a value
    that is not [<= 0], the constructor, which checks the identifier
    against [DragTableG1] only, accepts the value and ends in the panic of
    [dragFunctionFactory], not in an error. *)
Theorem CreateBallisticCoefficient_unknown_table_panics (v : b64) (dragTable : byte) :
  (v <=? fconst 0) = false -> (8 < Byte.to_N dragTable)%N ->
  CreateBallisticCoefficient v dragTable = Panic "unknown drag table type".
Proof.
  intros Hv Ht. rewrite CreateBallisticCoefficient_cases, Hv.
  destruct (N.ltb_spec (Byte.to_N dragTable) 1); [lia|].
  destruct (N.leb_spec (Byte.to_N dragTable) 8); [lia|]. reflexivity.
Qed.

(** At the value 1.0 and the identifier 9. *)
Lemma CreateBallisticCoefficient_unknown_table_panics_witness :
  CreateBallisticCoefficient (fconst 1.0 : b64) x09 = Panic "unknown drag table type".
Proof.
  apply (CreateBallisticCoefficient_unknown_table_panics (fconst 1.0) x09).
  - vm_compute. reflexivity.
  - vm_compute. reflexivity.
Defined.

(** The two checks the constructor does make return errors. *)
Lemma CreateBallisticCoefficient_errors :
  CreateBallisticCoefficient (fconst 1.0 : b64) x00
  = Err "ballisticCoefficient: Unknown drag table 0"
  /\ CreateBallisticCoefficient (fconst 0 : b64) DragTableG1
     = Err "ballisticCoefficient: Drag coefficient must be greater than zero"
  /\ CreateBallisticCoefficient (fconst (-0.5) : b64) xff
     = Err "ballisticCoefficient: Drag coefficient must be greater than zero".
Proof. repeat split; vm_compute; reflexivity. Qed.

(** The GS and GI identifiers are served by one and the same closure. *)
Lemma GS_GI_same_function {F : Type} `{Float64 F} :
  @dragFunctionFactory F _ DragTableGS = dragFunctionFactory DragTableGI.
Proof. reflexivity. Qed.

(** C9, as stated, fails: no sample of the GS table differs from the GI
    table, and at no Mach number do the GS and GI drag functions return
    different values. *)
Lemma GS_table_not_distinct :
  ~ (exists i : nat, @gSTable b64 _ !! i <> gITable !! i)
  /\ ~ (exists (mach : b64) f g,
          dragFunctionFactory DragTableGS = Ok f
          /\ dragFunctionFactory DragTableGI = Ok g
          /\ f mach <> g mach).
Proof.
  split.
  - intros [i Hi]. apply Hi. reflexivity.
  - intros (mach & f & g & Hf & Hg & Hne). apply Hne.
    rewrite GS_GI_same_function in Hf. congruence.
Qed.

(** C9, amended: the families G1, G2, G5, G6, G7, G8 and GI have seven
    tables, no two of them equal; the GS family has no table of its own
    but the GI table, and at every Mach number the GS and GI drag
    functions return the same value. *)
Theorem GS_shares_GI_table :
  NoDup [@g1Table b64 _; g2Table; g5Table; g6Table; g7Table; g8Table; gITable]
  /\ @gSTable b64 _ = gITable
  /\ exists f g,
       dragFunctionFactory DragTableGS = Ok f
       /\ dragFunctionFactory DragTableGI = Ok g
       /\ forall mach : b64, exists d, f mach = Ok d /\ g mach = Ok d.
Proof.
  split; [|split; [reflexivity|]].
  - apply (NoDup_fmap_1 (fun t : list (DataPoint.t b64) => (length t, head t))).
    vm_compute.
    repeat (apply NoDup_cons_2;
            [intros Hin; repeat (apply elem_of_cons in Hin as [Hin|Hin]; [discriminate Hin|]);
             apply elem_of_nil in Hin; exact Hin|]).
    apply NoDup_nil_2.
  - do 2 eexists. split; [reflexivity|]. split; [reflexivity|].
    intros mach.
    destruct (byCurve_total (@gITable b64 _) mach) as (curve & d & _ & _ & _ & Hd).
    { vm_compute. lia. }
    exists d. split; exact Hd.
Qed.

(** [Drag_formula] at the coefficient 0.365 of the G1 family and Mach 2:
    the value [d] is the one of the G1 curve. *)
Lemma Drag_formula_witness :
  exists d : b64,
    calculateByCurve g1Table (match g1Curve with Ok c => c | _ => [] end) (fconst 2.0)
    = Ok d
    /\ Drag (BallisticCoefficient.mk (fconst 0.365) DragTableG1 (byCurve g1Table g1Curve))
            (fconst 2.0)
       = Ok (d * fconst 2.08551e-04 / fconst 0.365).
Proof.
  destruct (Drag_formula (fconst 0.365 : b64) DragTableG1
              (BallisticCoefficient.mk (fconst 0.365) DragTableG1 (byCurve g1Table g1Curve))
              (fconst 2.0))
    as (_ & _ & _ & table & curve & d & Hfam & Hc & _ & _ & Hv & _ & Hd).
  - reflexivity.
  - assert (Ht : table = g1Table).
    { destruct Hfam as [[_ Ht]|Hfam]; [exact Ht|].
      repeat (destruct Hfam as [[E _]|Hfam]; [discriminate E|]).
      destruct Hfam as [E _]. discriminate E. }
    subst table. exists d. split; [|exact Hd].
    unfold g1Curve. rewrite Hc. exact Hv.
Defined.

(** [calculateByCurve_in_bounds] at the G1 table, the curve fitted to it
    and Mach 2.463. *)
Lemma calculateByCurve_in_bounds_witness :
  exists m : Z,
    selectSegment (@g1Table b64 _) (match g1Curve with Ok c => c | _ => [] end) (fconst 2.463) = Ok m
    /\ (0 <= m <= 77)%Z.
Proof.
  destruct (calculateByCurve_in_bounds (@g1Table b64 _)
              (match g1Curve with Ok c => c | _ => [] end) (fconst 2.463))
    as (m & c & Hm & Hr & _).
  - vm_compute. reflexivity.
  - vm_compute. lia.
  - exists m. split; [exact Hm|]. vm_compute in Hr. vm_compute. exact Hr.
Defined.

End Binary64.

(** ** The fit in exact arithmetic *)

Section Exact.
Local Open Scope Q_scope.

Lemma Qltb_lt (x y : Q) : Qltb x y = true <-> x < y.
Proof.
  unfold Qltb. rewrite negb_true_iff, <- not_true_iff_false, Qle_bool_iff.
  split; [apply Qnot_le_lt | apply Qlt_not_le].
Qed.

Lemma gap_nonzero (x1 x2 : Q) : x1 < x2 -> ~ x2 - x1 == 0.
Proof.
  intros H12 E. apply Qlt_minus_iff in H12. unfold Qminus in E.
  rewrite E in H12. exact (Qlt_irrefl 0 H12).
Qed.

(** The denominator of the quadratic coefficient is the product of the
    three gaps between the abscissas. *)
Lemma fit_denominator (x1 x2 x3 : Q) :
  x1 < x2 -> x2 < x3 ->
  ~ (x3 * x3 - x1 * x1) * (x2 - x1) - (x2 * x2 - x1 * x1) * (x3 - x1) == 0.
Proof.
  intros H12 H23 E.
  assert (E' : (x2 - x1) * ((x3 - x1) * (x3 - x2)) == 0) by (rewrite <- E; ring).
  assert (H13 : x1 < x3) by (eapply Qlt_trans; eassumption).
  apply Qmult_integral in E' as [E'|E']; [exact (gap_nonzero _ _ H12 E')|].
  apply Qmult_integral in E' as [E'|E'];
    [exact (gap_nonzero _ _ H13 E') | exact (gap_nonzero _ _ H23 E')].
Qed.

Lemma fitThree_passes (p1 p2 p3 : DataPoint.t Q) :
  DataPoint.A p1 < DataPoint.A p2 -> DataPoint.A p2 < DataPoint.A p3 ->
  passes (fitThree p1 p2 p3) p1 /\ passes (fitThree p1 p2 p3) p2
  /\ passes (fitThree p1 p2 p3) p3.
Proof.
  destruct p1 as [x1 y1], p2 as [x2 y2], p3 as [x3 y3]. cbn.
  intros H12 H23.
  pose proof (fit_denominator x1 x2 x3 H12 H23) as HD.
  pose proof (gap_nonzero x1 x2 H12) as HG.
  unfold passes, evalSegment, fitThree. cbn.
  repeat split.
  - ring.
  - field. split; assumption.
  - field. split; assumption.
Qed.

Lemma fitThree_unique (p1 p2 p3 : DataPoint.t Q) (s : CurvePoint.t Q) :
  DataPoint.A p1 < DataPoint.A p2 -> DataPoint.A p2 < DataPoint.A p3 ->
  passes s p1 -> passes s p2 -> passes s p3 ->
  sameCoefficients s (fitThree p1 p2 p3).
Proof.
  destruct p1 as [x1 y1], p2 as [x2 y2], p3 as [x3 y3], s as [a b c].
  unfold passes, sameCoefficients, evalSegment, fitThree. cbn.
  intros H12 H23 E1 E2 E3.
  pose proof (fit_denominator x1 x2 x3 H12 H23) as HD.
  pose proof (gap_nonzero x1 x2 H12) as HG.
  rewrite <- E1, <- E2, <- E3.
  repeat split; field; repeat split; assumption.
Qed.

Lemma increasing_lt (data : list (DataPoint.t Q)) (i : nat) p q :
  increasing data -> data !! i = Some p -> data !! S i = Some q ->
  DataPoint.A p < DataPoint.A q.
Proof. intros Hinc Hp Hq. apply Qltb_lt. exact (Hinc i p q Hp Hq). Qed.

(** In exact arithmetic, on a table of [n >= 2] samples of strictly
    increasing Mach, [calculateCurve] returns [n] segments; each interior
    segment [i], [1 <= i <= n-2], passes through the samples [i-1], [i]
    and [i+1] and is the only quadratic that does; the segments 0 and
    [n-1] have a zero quadratic coefficient and the secant slope of the
    first two and of the last two samples. *)
Lemma calculateCurve_exact_fit (data : list (DataPoint.t Q)) :
  (2 <= length data)%nat -> increasing data ->
  exists curve,
    calculateCurve data = Ok curve
    /\ length curve = length data
    /\ (forall (i : nat) p1 p2 p3,
          (1 <= i)%nat -> (i <= length data - 2)%nat ->
          data !! (i - 1)%nat = Some p1 -> data !! i = Some p2 ->
          data !! S i = Some p3 ->
          exists s, curve !! i = Some s
                    /\ passes s p1 /\ passes s p2 /\ passes s p3
                    /\ forall s', passes s' p1 -> passes s' p2 -> passes s' p3 ->
                                  sameCoefficients s' s)
    /\ (exists d0 d1 s,
          data !! 0%nat = Some d0 /\ data !! 1%nat = Some d1
          /\ curve !! 0%nat = Some s
          /\ CurvePoint.A s == 0
          /\ CurvePoint.B s
             == (DataPoint.B d1 - DataPoint.B d0) / (DataPoint.A d1 - DataPoint.A d0))
    /\ (exists dk dl s,
          data !! (length data - 2)%nat = Some dk
          /\ data !! (length data - 1)%nat = Some dl
          /\ curve !! (length data - 1)%nat = Some s
          /\ CurvePoint.A s == 0
          /\ CurvePoint.B s
             == (DataPoint.B dl - DataPoint.B dk) / (DataPoint.A dl - DataPoint.A dk)).
Proof.
  intros Hn Hinc.
  destruct (calculateCurve_spec data Hn) as (curve & Hc & Hlen & Hfirst & Hmid & Hlast).
  exists curve. split; [assumption|]. split; [assumption|]. split; [|split].
  - intros i p1 p2 p3 Hi1 Hi2 Hp1 Hp2 Hp3.
    assert (H12 : DataPoint.A p1 < DataPoint.A p2).
    { apply (increasing_lt data (i - 1)); auto.
      replace (S (i - 1)) with i by lia. assumption. }
    assert (H23 : DataPoint.A p2 < DataPoint.A p3)
      by (apply (increasing_lt data i); auto).
    exists (fitThree p1 p2 p3). split.
    { apply Hmid; auto. lia. }
    destruct (fitThree_passes p1 p2 p3 H12 H23) as (? & ? & ?).
    split; [assumption|]. split; [assumption|]. split; [assumption|].
    intros s'. apply fitThree_unique; assumption.
  - destruct (lookup_lt_is_Some_2 data 0) as [d0 Hd0]; [lia|].
    destruct (lookup_lt_is_Some_2 data 1) as [d1 Hd1]; [lia|].
    exists d0, d1, (firstSegment d0 d1).
    repeat split; auto; reflexivity.
  - destruct (lookup_lt_is_Some_2 data (length data - 2)) as [dk Hdk]; [lia|].
    destruct (lookup_lt_is_Some_2 data (length data - 1)) as [dl Hdl]; [lia|].
    exists dk, dl, (lastSegment dk dl).
    repeat split; auto; reflexivity.
Qed.

(** The decimal constants of the eight tables, taken exactly, increase
    as their float64 values do. *)
Lemma referenceTables_increasing_exact :
  Forall (fun table : list (DataPoint.t Q) => increasing table) referenceTables.
Proof.
  unfold referenceTables.
  repeat apply Forall_cons_2; try apply Forall_nil_2;
    apply increasingb_correct; vm_compute; reflexivity.
Qed.

End Exact.

(** ** The fit in float64 *)

Section FloatFit.
Local Open Scope f64_scope.

(** C7 does not hold of the float64 program as stated.  On
    [closeMachTable], whose Mach values are strictly increasing, the
    interior segment 1 misses its own sample by more than 1e-7: the
    closed form loses its digits to cancellation.  On
    [repeatedMachTable], a table of three samples that the code accepts,
    the closed form divides by zero: the linear coefficient of segment 1
    is NaN and so is its value at every Mach. *)
Lemma interior_segment_misses_samples :
  (increasing (@closeMachTable b64 _)
   /\ exists curve s p,
        calculateCurve (@closeMachTable b64 _) = Ok curve
        /\ length curve = 3%nat
        /\ curve !! 1%nat = Some s
        /\ closeMachTable !! 1%nat = Some p
        /\ evalSegment s (DataPoint.A p) <> DataPoint.B p
        /\ within (fconst 1e-7) (evalSegment s (DataPoint.A p)) (DataPoint.B p) = false)
  /\ (exists curve s p,
        calculateCurve (@repeatedMachTable b64 _) = Ok curve
        /\ length curve = 3%nat
        /\ curve !! 1%nat = Some s
        /\ repeatedMachTable !! 1%nat = Some p
        /\ CurvePoint.B s = S754_nan
        /\ evalSegment s (DataPoint.A p) <> DataPoint.B p
        /\ within (fconst 1) (evalSegment s (DataPoint.A p)) (DataPoint.B p) = false).
Proof.
  split.
  - split; [apply increasingb_correct; vm_compute; reflexivity|].
    eexists _, _, _.
    split; [vm_compute; reflexivity|]. split; [reflexivity|].
    split; [reflexivity|]. split; [reflexivity|].
    split; [vm_compute; discriminate | vm_compute; reflexivity].
  - eexists _, _, _.
    split; [vm_compute; reflexivity|]. split; [reflexivity|].
    split; [reflexivity|]. split; [reflexivity|]. split; [reflexivity|].
    split; [vm_compute; discriminate | vm_compute; reflexivity].
Qed.

(** C7, as it holds: for every table of [n >= 2] samples, in binary64 as
    in any arithmetic, [calculateCurve] returns [n] segments; the interior
    segment [i], [1 <= i <= n-2], is the closed-form three-point solution
    [fitThree] computed from the samples [i-1], [i], [i+1]; the segments 0
    and [n-1] have a zero quadratic coefficient and, as slope, the secant
    slope computed from the first two and from the last two samples.  In
    binary64 every interior segment of the eight reference curves
    satisfies its three interpolation equations within 1e-9.  In exact
    arithmetic, on a table of strictly increasing Mach, the closed form
    satisfies them exactly and is the only quadratic that does. *)
Theorem calculateCurve_fit :
  (forall (F : Type) (arith : Float64 F) (data : list (DataPoint.t F)),
     (2 <= length data)%nat ->
     exists curve,
       calculateCurve data = Ok curve
       /\ length curve = length data
       /\ (forall (i : nat) p1 p2 p3,
             (1 <= i)%nat -> (i <= length data - 2)%nat ->
             data !! (i - 1)%nat = Some p1 -> data !! i = Some p2 ->
             data !! S i = Some p3 ->
             curve !! i = Some (fitThree p1 p2 p3))
       /\ (exists d0 d1 s,
             data !! 0%nat = Some d0 /\ data !! 1%nat = Some d1
             /\ curve !! 0%nat = Some s
             /\ CurvePoint.A s = fconst 0
             /\ CurvePoint.B s
                = (DataPoint.B d1 - DataPoint.B d0) / (DataPoint.A d1 - DataPoint.A d0))
       /\ (exists dk dl s,
             data !! (length data - 2)%nat = Some dk
             /\ data !! (length data - 1)%nat = Some dl
             /\ curve !! (length data - 1)%nat = Some s
             /\ CurvePoint.A s = fconst 0
             /\ CurvePoint.B s
                = (DataPoint.B dl - DataPoint.B dk) / (DataPoint.A dl - DataPoint.A dk)))
  /\ Forall (fun table : list (DataPoint.t b64) =>
               exists curve,
                 calculateCurve table = Ok curve
                 /\ forall (i : nat) s p1 p2 p3,
                      (1 <= i)%nat -> (i <= length table - 2)%nat ->
                      curve !! i = Some s ->
                      table !! (i - 1)%nat = Some p1 -> table !! i = Some p2 ->
                      table !! S i = Some p3 ->
                      within (fconst 1e-9) (evalSegment s (DataPoint.A p1))
                             (DataPoint.B p1) = true
                      /\ within (fconst 1e-9) (evalSegment s (DataPoint.A p2))
                                (DataPoint.B p2) = true
                      /\ within (fconst 1e-9) (evalSegment s (DataPoint.A p3))
                                (DataPoint.B p3) = true)
            referenceTables
  /\ (forall data : list (DataPoint.t Q),
        (2 <= length data)%nat -> increasing data ->
        exists curve,
          calculateCurve data = Ok curve
          /\ forall (i : nat) p1 p2 p3,
               (1 <= i)%nat -> (i <= length data - 2)%nat ->
               data !! (i - 1)%nat = Some p1 -> data !! i = Some p2 ->
               data !! S i = Some p3 ->
               exists s, curve !! i = Some s
                         /\ passes s p1 /\ passes s p2 /\ passes s p3
                         /\ forall s', passes s' p1 -> passes s' p2 -> passes s' p3 ->
                                       sameCoefficients s' s).
Proof.
  split; [|split].
  - intros F arith data Hn.
    destruct (calculateCurve_spec data Hn) as (curve & Hc & Hlen & Hfirst & Hmid & Hlast).
    exists curve. split; [assumption|]. split; [assumption|]. split; [|split].
    + intros i p1 p2 p3 Hi1 Hi2 Hp1 Hp2 Hp3. apply Hmid; auto. lia.
    + destruct (lookup_lt_is_Some_2 data 0) as [d0 Hd0]; [lia|].
      destruct (lookup_lt_is_Some_2 data 1) as [d1 Hd1]; [lia|].
      exists d0, d1, (firstSegment d0 d1). repeat split; auto.
    + destruct (lookup_lt_is_Some_2 data (length data - 2)) as [dk Hdk]; [lia|].
      destruct (lookup_lt_is_Some_2 data (length data - 1)) as [dl Hdl]; [lia|].
      exists dk, dl, (lastSegment dk dl). repeat split; auto.
  - eapply Forall_impl; [exact interior_segments_interpolate|].
    intros table (curve & Hc & Hall). exists curve. split; [exact Hc|].
    intros i s p1 p2 p3 Hi1 Hi2 Hs Hp1 Hp2 Hp3.
    rewrite forallb_forall in Hall.
    specialize (Hall i). unfold interpolatesb in Hall.
    rewrite Hs, Hp1, Hp2, Hp3 in Hall.
    assert (Hin : In i (seq 1 (length table - 2))) by (apply in_seq; lia).
    apply Hall in Hin.
    apply andb_prop in Hin as [Hin H3]. apply andb_prop in Hin as [H1 H2].
    auto.
  - intros data Hn Hinc.
    destruct (calculateCurve_exact_fit data Hn Hinc) as (curve & Hc & _ & Hmid & _).
    exists curve. split; [exact Hc | exact Hmid].
Qed.

(** [calculateCurve_fit] at the custom table of the test, in binary64. *)
Lemma calculateCurve_fit_witness :
  exists (curve : list (CurvePoint.t b64)) s,
    calculateCurve customTable = Ok curve
    /\ length curve = 7%nat
    /\ curve !! 6%nat = Some s
    /\ CurvePoint.A s = fconst 0.
Proof.
  destruct (proj1 calculateCurve_fit b64 binary64 customTable)
    as (curve & Hc & Hlen & _ & _ & (dk & dl & s & _ & _ & Hs & HA & _)).
  - vm_compute. lia.
  - exists curve, s. split; [exact Hc|]. split; [exact Hlen|].
    split; [exact Hs | exact HA].
Defined.

End FloatFit.

(** ** The search in exact arithmetic *)

Section ExactSearch.
Local Open Scope Q_scope.
Implicit Types (data : list (DataPoint.t Q)) (curve : list (CurvePoint.t Q)) (mach : Q).

Lemma increasing_mono data :
  increasing data ->
  forall (i j : nat) p q, (i < j)%nat -> data !! i = Some p -> data !! j = Some q ->
  DataPoint.A p < DataPoint.A q.
Proof.
  intros Hinc i j. induction j as [|j IH]; intros p q Hij Hp Hq; [lia|].
  destruct (decide (i = j)) as [->|Hne].
  - exact (increasing_lt data j p q Hinc Hp Hq).
  - destruct (lookup_lt_is_Some_2 data j) as [r Hr].
    { apply lookup_lt_Some in Hq. lia. }
    apply Qlt_trans with (DataPoint.A r).
    + apply IH; auto. lia.
    + exact (increasing_lt data j r q Hinc Hr Hq).
Qed.

Lemma increasing_mono_le data :
  increasing data ->
  forall (i j : nat) p q, (i <= j)%nat -> data !! i = Some p -> data !! j = Some q ->
  DataPoint.A p <= DataPoint.A q.
Proof.
  intros Hinc i j p q Hij Hp Hq. destruct (decide (i = j)) as [->|Hne].
  - replace q with p by congruence. apply Qle_refl.
  - apply Qlt_le_weak. apply (increasing_mono data Hinc i j); auto. lia.
Qed.

Lemma distance_cases (x y : Q) :
  (x < y /\ distance x y = y - x) \/ (y <= x /\ distance x y = x - y).
Proof.
  unfold distance. cbn. destruct (Qltb x y) eqn:E.
  - left. split; [apply Qltb_lt; exact E | reflexivity].
  - right. split; [|reflexivity].
    apply Qnot_lt_le. intros Hlt. apply Qltb_lt in Hlt. congruence.
Qed.

Lemma brackets_step data mach top lo hi d :
  brackets data mach top lo hi -> (1 < hi - lo)%Z ->
  data !! Z.to_nat ((hi + lo) / 2) = Some d ->
  if fltb (DataPoint.A d) mach
  then brackets data mach top ((hi + lo) / 2)%Z hi
  else brackets data mach top lo ((hi + lo) / 2)%Z.
Proof.
  intros [Hlo Hhi] Hw Hd. cbn. destruct (Qltb (DataPoint.A d) mach) eqn:E.
  - split; [right|exact Hhi]. exists d. split; [exact Hd|]. apply Qltb_lt. exact E.
  - split; [exact Hlo|right]. exists d. split; [exact Hd|].
    apply Qnot_lt_le. intros Hlt. apply Qltb_lt in Hlt. congruence.
Qed.

(** In exact arithmetic, on a table of strictly increasing Mach, the
    segment selected is that of the sample nearest to [mach] among the
    samples [0 .. n-2]; of two samples at the same distance the one of
    higher index is taken. *)
Theorem selectSegment_nearest data curve mach :
  length data = length curve -> (2 <= length curve)%nat -> increasing data ->
  exists (m : nat) dm,
    selectSegment data curve mach = Ok (Z.of_nat m)
    /\ (m <= length curve - 2)%nat
    /\ data !! m = Some dm
    /\ forall (j : nat) dj,
         (j <= length curve - 2)%nat -> data !! j = Some dj ->
         distance mach (DataPoint.A dm) <= distance mach (DataPoint.A dj)
         /\ (distance mach (DataPoint.A dm) == distance mach (DataPoint.A dj) ->
             (j <= m)%nat).
Proof.
  intros Hlen Hn Hinc.
  destruct (selectSegment_invariant
              (brackets data mach (Z.of_nat (length curve) - 2)) data curve mach)
    as (lo & hi & dlo & dhi & [Hblo Hbhi] & Hlohi & Hhi & Hw & Hdlo & Hdhi & Hsel);
    [intros; apply brackets_step; assumption | lia | lia | split; left; reflexivity |].
  assert (Hmono := increasing_mono_le data Hinc).
  assert (Hstrict := increasing_mono data Hinc).
  (* the samples at or below [lo] and those at or above [hi] *)
  assert (Hbelow : forall (j : nat) dj, (j <= Z.to_nat lo)%nat -> data !! j = Some dj ->
                     DataPoint.A dj <= DataPoint.A dlo)
    by (intros j dj Hj Hdj; exact (Hmono j (Z.to_nat lo) dj dlo Hj Hdj Hdlo)).
  assert (Habove : forall (j : nat) dj, (Z.to_nat hi <= j)%nat -> data !! j = Some dj ->
                     DataPoint.A dhi <= DataPoint.A dj)
    by (intros j dj Hj Hdj; exact (Hmono (Z.to_nat hi) j dhi dj Hj Hdhi Hdj)).
  assert (Hlo_mach : lo = 0%Z \/ DataPoint.A dlo < mach).
  { destruct Hblo as [->|(d & Hd & Hlt)]; [left; reflexivity|right].
    replace dlo with d by congruence. exact Hlt. }
  assert (Hhi_mach : hi = (Z.of_nat (length curve) - 2)%Z \/ mach <= DataPoint.A dhi).
  { destruct Hbhi as [->|(d & Hd & Hle)]; [left; reflexivity|right].
    replace dhi with d by congruence. exact Hle. }
  cbn in Hsel.
  destruct (Qltb (mach - DataPoint.A dlo) (DataPoint.A dhi - mach)) eqn:Hcmp.
  - (* [lo] is selected *)
    apply Qltb_lt in Hcmp.
    exists (Z.to_nat lo), dlo. rewrite Z2Nat.id by lia.
    split; [exact Hsel|]. split; [lia|]. split; [exact Hdlo|].
    intros j dj Hj Hdj.
    destruct (decide (j <= Z.to_nat lo)%nat) as [Hjlo|Hjlo].
    + pose proof (Hbelow j dj Hjlo Hdj) as Hle.
      destruct Hlo_mach as [->|Hlt].
      * assert (j = 0%nat) as -> by (change (Z.to_nat 0) with 0%nat in Hjlo; lia).
        change (Z.to_nat 0) with 0%nat in Hdlo. replace dj with dlo by congruence.
        split; [apply Qle_refl | intros _; lia].
      * split; [|intros _; exact Hjlo].
        destruct (distance_cases mach (DataPoint.A dlo)) as [[? ->]|[? ->]],
                 (distance_cases mach (DataPoint.A dj)) as [[? ->]|[? ->]]; lra.
    + assert (Hjhi : (Z.to_nat hi <= j)%nat) by lia.
      pose proof (Habove j dj Hjhi Hdj) as Hge.
      pose proof (Hstrict (Z.to_nat lo) j dlo dj ltac:(lia) Hdlo Hdj) as Hlj.
      destruct (distance_cases mach (DataPoint.A dlo)) as [[? E1]|[? E1]],
               (distance_cases mach (DataPoint.A dj)) as [[? E2]|[? E2]];
        rewrite E1, E2; split; try lra; intros Heq; exfalso; lra.
  - (* [hi] is selected *)
    assert (Hge : DataPoint.A dhi - mach <= mach - DataPoint.A dlo).
    { apply Qnot_lt_le. intros Hlt. apply Qltb_lt in Hlt. congruence. }
    exists (Z.to_nat hi), dhi. rewrite Z2Nat.id by lia.
    split; [exact Hsel|]. split; [lia|]. split; [exact Hdhi|].
    intros j dj Hj Hdj.
    destruct (decide (Z.to_nat hi <= j)%nat) as [Hjhi|Hjhi].
    + pose proof (Habove j dj Hjhi Hdj) as Hle.
      destruct Hhi_mach as [->|Hle'].
      * assert (j = Z.to_nat (Z.of_nat (length curve) - 2)) as -> by lia.
        replace dj with dhi by congruence.
        split; [apply Qle_refl | intros _; lia].
      * destruct (decide (j = Z.to_nat hi)) as [->|Hne].
        { replace dj with dhi by congruence.
          split; [apply Qle_refl | intros _; lia]. }
        pose proof (Hstrict (Z.to_nat hi) j dhi dj ltac:(lia) Hdhi Hdj) as Hhj.
        destruct (distance_cases mach (DataPoint.A dhi)) as [[? E1]|[? E1]],
                 (distance_cases mach (DataPoint.A dj)) as [[? E2]|[? E2]];
          rewrite E1, E2; split; try lra; intros Heq; exfalso; lra.
    + assert (Hjlo : (j <= Z.to_nat lo)%nat) by lia.
      pose proof (Hbelow j dj Hjlo Hdj) as Hle.
      split; [|intros _; lia].
      assert (Hlh : DataPoint.A dlo <= DataPoint.A dhi)
        by (apply (Hmono (Z.to_nat lo) (Z.to_nat hi)); auto; lia).
      destruct (distance_cases mach (DataPoint.A dhi)) as [[? ->]|[? ->]],
               (distance_cases mach (DataPoint.A dj)) as [[? ->]|[? ->]]; lra.
Qed.

Lemma distance_self (x : Q) : distance x x == 0.
Proof. destruct (distance_cases x x) as [[? ->]|[? ->]]; ring. Qed.

Lemma distance_zero (x y : Q) : distance x y <= 0 -> x == y.
Proof. destruct (distance_cases x y) as [[? ->]|[? ->]]; intros; lra. Qed.

(** Two samples of an increasing table with the same Mach are one. *)
Lemma increasing_inj data :
  increasing data ->
  forall (i j : nat) p q, data !! i = Some p -> data !! j = Some q ->
  DataPoint.A p == DataPoint.A q -> i = j.
Proof.
  intros Hinc i j p q Hp Hq E.
  destruct (Nat.lt_trichotomy i j) as [Hlt|[->|Hlt]]; [|reflexivity|].
  - pose proof (increasing_mono data Hinc i j p q Hlt Hp Hq). lra.
  - pose proof (increasing_mono data Hinc j i q p Hlt Hq Hp). lra.
Qed.

(** At the Mach of a sample of index [i <= n-2] the segment [i] is
    selected. *)
Lemma selectSegment_at_sample data curve (i : nat) p :
  length data = length curve -> (2 <= length curve)%nat -> increasing data ->
  (i <= length curve - 2)%nat -> data !! i = Some p ->
  selectSegment data curve (DataPoint.A p) = Ok (Z.of_nat i).
Proof.
  intros Hlen Hn Hinc Hi Hp.
  destruct (selectSegment_nearest data curve (DataPoint.A p) Hlen Hn Hinc)
    as (m & dm & Hsel & Hm & Hdm & Hnear).
  destruct (Hnear i p Hi Hp) as [Hle _].
  rewrite distance_self in Hle. apply distance_zero in Hle.
  rewrite (increasing_inj data Hinc i m p dm Hp Hdm Hle). exact Hsel.
Qed.

(** Below the first sample the segment 0 is selected. *)
Lemma selectSegment_below data curve mach d0 :
  length data = length curve -> (2 <= length curve)%nat -> increasing data ->
  data !! 0%nat = Some d0 -> mach < DataPoint.A d0 ->
  selectSegment data curve mach = Ok 0%Z.
Proof.
  intros Hlen Hn Hinc Hd0 Hlt.
  destruct (selectSegment_nearest data curve mach Hlen Hn Hinc)
    as (m & dm & Hsel & Hm & Hdm & Hnear).
  destruct (Hnear 0%nat d0 ltac:(lia) Hd0) as [Hle _].
  destruct m as [|m]; [exact Hsel|exfalso].
  pose proof (increasing_mono data Hinc 0 (S m) d0 dm ltac:(lia) Hd0 Hdm).
  destruct (distance_cases mach (DataPoint.A dm)) as [[? E1]|[? E1]],
           (distance_cases mach (DataPoint.A d0)) as [[? E2]|[? E2]];
    rewrite E1, E2 in Hle; lra.
Qed.

(** At or above the sample [n-2], so above the whole table too, the
    segment [n-2] is selected, never the segment [n-1]. *)
Lemma selectSegment_above data curve mach dk :
  length data = length curve -> (2 <= length curve)%nat -> increasing data ->
  data !! (length curve - 2)%nat = Some dk -> DataPoint.A dk <= mach ->
  selectSegment data curve mach = Ok (Z.of_nat (length curve) - 2)%Z.
Proof.
  intros Hlen Hn Hinc Hdk Hge.
  destruct (selectSegment_nearest data curve mach Hlen Hn Hinc)
    as (m & dm & Hsel & Hm & Hdm & Hnear).
  destruct (Hnear (length curve - 2)%nat dk ltac:(lia) Hdk) as [Hle _].
  destruct (decide (m = length curve - 2)%nat) as [->|Hne].
  { rewrite Hsel. f_equal. lia. }
  exfalso.
  pose proof (increasing_mono data Hinc m (length curve - 2) dm dk ltac:(lia) Hdm Hdk).
  destruct (distance_cases mach (DataPoint.A dm)) as [[? E1]|[? E1]],
           (distance_cases mach (DataPoint.A dk)) as [[? E2]|[? E2]];
    rewrite E1, E2 in Hle; lra.
Qed.

(** The first segment is the line through the first two samples. *)
Lemma firstSegment_passes (d0 d1 : DataPoint.t Q) :
  DataPoint.A d0 < DataPoint.A d1 ->
  passes (firstSegment d0 d1) d0 /\ passes (firstSegment d0 d1) d1.
Proof.
  destruct d0 as [x0 y0], d1 as [x1 y1]. cbn. intros H01.
  pose proof (gap_nonzero x0 x1 H01) as HG.
  unfold passes, evalSegment, firstSegment. cbn. split; field; assumption.
Qed.

(** The last segment is a line through neither of the last two samples:
    at the Mach of the sample [n-2] it takes the coefficient of the sample
    [n-1], and at the Mach of the sample [n-1] it is off by the whole step
    between the two coefficients. *)
Lemma lastSegment_misses (dk dl : DataPoint.t Q) :
  DataPoint.A dk < DataPoint.A dl ->
  evalSegment (lastSegment dk dl) (DataPoint.A dk) == DataPoint.B dl
  /\ evalSegment (lastSegment dk dl) (DataPoint.A dl)
     == DataPoint.B dl + (DataPoint.B dl - DataPoint.B dk).
Proof.
  destruct dk as [xk yk], dl as [xl yl]. cbn. intros Hkl.
  pose proof (gap_nonzero xk xl Hkl) as HG.
  unfold evalSegment, lastSegment. cbn. split; field; assumption.
Qed.

(** In exact arithmetic the fitted curve of any table of [n >= 2] samples
    of strictly increasing Mach, evaluated at the Mach of a sample,
    returns the coefficient of that sample, the last sample included. *)
Theorem exact_fit_reproduces_samples data (i : nat) p :
  (2 <= length data)%nat -> increasing data -> data !! i = Some p ->
  exists curve v,
    calculateCurve data = Ok curve
    /\ calculateByCurve data curve (DataPoint.A p) = Ok v
    /\ v == DataPoint.B p.
Proof.
  intros Hn Hinc Hp.
  destruct (calculateCurve_spec data Hn) as (curve & Hc & Hlen & Hfirst & Hmid & Hlast).
  exists curve.
  assert (Hi : (i < length data)%nat) by (apply lookup_lt_Some in Hp; exact Hp).
  (* the segment selected, and a sample triple or pair it is fitted to *)
  assert (Hseg : exists (m : nat) s,
             selectSegment data curve (DataPoint.A p) = Ok (Z.of_nat m)
             /\ curve !! m = Some s /\ passes s p).
  { destruct (decide (i <= length data - 2)%nat) as [Hle|Hgt].
    - exists i.
      rewrite (selectSegment_at_sample data curve i p); [|lia|lia|exact Hinc|lia|exact Hp].
      destruct (decide (i = 0)%nat) as [->|Hpos].
      + destruct (lookup_lt_is_Some_2 data 1) as [d1 Hd1]; [lia|].
        exists (firstSegment p d1). split; [reflexivity|]. split; [auto|].
        apply firstSegment_passes. exact (increasing_lt data 0 p d1 Hinc Hp Hd1).
      + destruct (lookup_lt_is_Some_2 data (i - 1)) as [p1 Hp1]; [lia|].
        destruct (lookup_lt_is_Some_2 data (S i)) as [p3 Hp3]; [lia|].
        exists (fitThree p1 p p3). split; [reflexivity|].
        split; [apply Hmid; auto; lia|].
        apply fitThree_passes.
        * apply (increasing_lt data (i - 1)); auto.
          replace (S (i - 1)) with i by lia. exact Hp.
        * exact (increasing_lt data i p p3 Hinc Hp Hp3).
    - (* the last sample: the segment [n-2] passes through it as well *)
      assert (i = length data - 1)%nat as -> by lia.
      destruct (lookup_lt_is_Some_2 data (length data - 2)) as [dk Hdk]; [lia|].
      assert (Hkp : DataPoint.A dk < DataPoint.A p).
      { apply (increasing_lt data (length data - 2)); auto.
        replace (S (length data - 2)) with (length data - 1)%nat by lia. exact Hp. }
      exists (length data - 2)%nat.
      rewrite (selectSegment_above data curve (DataPoint.A p) dk);
        [|lia|lia|exact Hinc|rewrite Hlen; exact Hdk|lra].
      rewrite Hlen.
      destruct (decide (length data = 2)%nat) as [E2|Hne].
      + rewrite E2 in *. change (2 - 2)%nat with 0%nat in *.
        change (2 - 1)%nat with 1%nat in *.
        exists (firstSegment dk p). split; [reflexivity|]. split; [auto|].
        apply firstSegment_passes. exact Hkp.
      + destruct (lookup_lt_is_Some_2 data (length data - 3)) as [dj Hdj]; [lia|].
        exists (fitThree dj dk p). split; [f_equal; lia|]. split.
        * apply Hmid; auto; try lia.
          -- replace (length data - 2 - 1)%nat with (length data - 3)%nat by lia. exact Hdj.
          -- replace (S (length data - 2)) with (length data - 1)%nat by lia. exact Hp.
        * apply fitThree_passes; [|exact Hkp].
          apply (increasing_lt data (length data - 3)); auto.
          replace (S (length data - 3)) with (length data - 2)%nat by lia. exact Hdk. }
  destruct Hseg as (m & s & Hsel & Hs & Hpass).
  exists (evalSegment s (DataPoint.A p)). split; [exact Hc|]. split; [|exact Hpass].
  unfold calculateByCurve. rewrite Hsel. simpl.
  rewrite (index_nat curve m s Hs). reflexivity.
Qed.

End ExactSearch.

(** ** Continuity of the fit in exact arithmetic *)

Section ExactContinuity.
Local Open Scope Q_scope.
Implicit Types (data : list (DataPoint.t Q)) (curve : list (CurvePoint.t Q)) (mach : Q).

(** Every segment but the last passes through its own sample and the
    next one. *)
Lemma segment_passes data curve (m : nat) s p q :
  (2 <= length data)%nat -> increasing data -> calculateCurve data = Ok curve ->
  (m <= length data - 2)%nat ->
  curve !! m = Some s -> data !! m = Some p -> data !! S m = Some q ->
  passes s p /\ passes s q.
Proof.
  intros Hn Hinc Hc Hm Hs Hp Hq.
  destruct (calculateCurve_spec data Hn) as (curve' & Hc' & Hlen & Hfirst & Hmid & _).
  assert (curve' = curve) as -> by congruence.
  pose proof (increasing_lt data m p q Hinc Hp Hq) as Hpq.
  destruct (decide (m = 0)%nat) as [->|Hpos].
  - rewrite (Hfirst p q Hp Hq) in Hs. injection Hs as <-.
    apply firstSegment_passes. exact Hpq.
  - destruct (lookup_lt_is_Some_2 data (m - 1)) as [o Ho]; [lia|].
    rewrite (Hmid m o p q) in Hs by (auto; lia). injection Hs as <-.
    apply fitThree_passes; [|exact Hpq].
    apply (increasing_lt data (m - 1)); auto.
    replace (S (m - 1)) with m by lia. exact Hp.
Qed.

Lemma segment_passes_previous data curve (m : nat) s o :
  (2 <= length data)%nat -> increasing data -> calculateCurve data = Ok curve ->
  (1 <= m <= length data - 2)%nat ->
  curve !! m = Some s -> data !! (m - 1)%nat = Some o ->
  passes s o.
Proof.
  intros Hn Hinc Hc Hm Hs Ho.
  destruct (calculateCurve_spec data Hn) as (curve' & Hc' & Hlen & _ & Hmid & _).
  assert (curve' = curve) as -> by congruence.
  destruct (lookup_lt_is_Some_2 data m) as [p Hp]; [lia|].
  destruct (lookup_lt_is_Some_2 data (S m)) as [q Hq]; [lia|].
  rewrite (Hmid m o p q) in Hs by (auto; lia). injection Hs as <-.
  apply fitThree_passes.
  - apply (increasing_lt data (m - 1)); auto.
    replace (S (m - 1)) with m by lia. exact Hp.
  - exact (increasing_lt data m p q Hinc Hp Hq).
Qed.

(** In exact arithmetic two adjacent segments [i] and [i+1], the second
    not being the last, take the same value at the Mach of the samples
    [i] and [i+1]: the coefficients of these samples. *)
Lemma adjacent_segments_agree_exact data curve (i : nat) s s' p q :
  (2 <= length data)%nat -> increasing data -> calculateCurve data = Ok curve ->
  (S i <= length data - 2)%nat ->
  curve !! i = Some s -> curve !! S i = Some s' ->
  data !! i = Some p -> data !! S i = Some q ->
  evalSegment s (DataPoint.A p) == evalSegment s' (DataPoint.A p)
  /\ evalSegment s (DataPoint.A q) == evalSegment s' (DataPoint.A q).
Proof.
  intros Hn Hinc Hc Hi Hs Hs' Hp Hq.
  destruct (segment_passes data curve i s p q) as [H1 H2]; auto; [lia|].
  destruct (lookup_lt_is_Some_2 data (S (S i))) as [r Hr]; [lia|].
  destruct (segment_passes data curve (S i) s' q r) as [H3 _]; auto.
  assert (H4 : passes s' p).
  { apply (segment_passes_previous data curve (S i)); auto; [lia|].
    replace (S i - 1)%nat with i by lia. exact Hp. }
  unfold passes in *. split.
  - rewrite H1, H4. reflexivity.
  - rewrite H2, H3. reflexivity.
Qed.

(** The last two segments do not: at the Mach of the last sample they
    differ by the step between the last two coefficients, and so they do
    at the Mach of the sample before. *)
Lemma last_segments_gap_exact data curve s s' dk dl :
  (2 <= length data)%nat -> increasing data -> calculateCurve data = Ok curve ->
  curve !! (length data - 2)%nat = Some s -> curve !! (length data - 1)%nat = Some s' ->
  data !! (length data - 2)%nat = Some dk -> data !! (length data - 1)%nat = Some dl ->
  evalSegment s' (DataPoint.A dk) - evalSegment s (DataPoint.A dk)
    == DataPoint.B dl - DataPoint.B dk
  /\ evalSegment s' (DataPoint.A dl) - evalSegment s (DataPoint.A dl)
    == DataPoint.B dl - DataPoint.B dk.
Proof.
  intros Hn Hinc Hc Hs Hs' Hdk Hdl.
  assert (Hdl' : data !! S (length data - 2) = Some dl)
    by (replace (S (length data - 2)) with (length data - 1)%nat by lia; exact Hdl).
  destruct (segment_passes data curve (length data - 2) s dk dl) as [H1 H2]; auto.
  destruct (calculateCurve_spec data Hn) as (curve' & Hc' & _ & _ & _ & Hlast).
  assert (curve' = curve) as -> by congruence.
  rewrite (Hlast dk dl Hdk Hdl) in Hs'. injection Hs' as <-.
  destruct (lastSegment_misses dk dl) as [H3 H4].
  { exact (increasing_lt data (length data - 2) dk dl Hinc Hdk Hdl'). }
  unfold passes in *. rewrite H1, H2, H3, H4. split; ring.
Qed.

End ExactContinuity.

(** ** Edge behaviour of the fitter and of the evaluator *)

Section Edges.
Context {F : Type} `{Float64 F}.
Local Open Scope f64_scope.
Implicit Types (data : list (DataPoint.t F)) (curve : list (CurvePoint.t F)) (mach : F).

(** [calculateCurve] asks nothing of a table but two samples: with two or
    more it returns one segment per sample, whatever the values (Mach
    repeated or decreasing, NaN); with fewer it panics on
    [dataPoints[1]]. *)
Theorem calculateCurve_two_samples data :
  ((2 <= length data)%nat ->
     exists curve, calculateCurve data = Ok curve /\ length curve = length data)
  /\ ((length data < 2)%nat -> calculateCurve data = Panic index_out_of_range).
Proof.
  split.
  - intros Hn. destruct (calculateCurve_spec data Hn) as (curve & Hc & Hlen & _).
    exists curve. split; assumption.
  - intros Hn. unfold calculateCurve.
    assert (E : index data 1 = Panic index_out_of_range).
    { unfold index. simpl. rewrite lookup_ge_None_2; [reflexivity|].
      change (Pos.to_nat 1) with 1%nat. lia. }
    rewrite E. reflexivity.
Qed.

Lemma index_negative {A : Type} (l : list A) (i : Z) :
  (i < 0)%Z -> index l i = Panic index_out_of_range.
Proof. intros Hi. unfold index. destruct (Z.leb_spec 0 i); [lia|reflexivity]. Qed.

Lemma index_nil {A : Type} (i : Z) : index (@nil A) i = Panic index_out_of_range.
Proof. unfold index. destruct (0 <=? i)%Z; reflexivity. Qed.

Lemma searchLoop_nil mach : forall fuel mlo mhi,
  (mhi - mlo <= Z.of_nat fuel)%Z ->
  searchLoop fuel [] mach mlo mhi = Panic index_out_of_range
  \/ searchLoop fuel [] mach mlo mhi = Ok (mlo, mhi).
Proof.
  intros [|fuel] mlo mhi Hfuel; simpl.
  - destruct (Z.gtb_spec (mhi - mlo) 1); [lia|]. right. reflexivity.
  - destruct (Z.gtb_spec (mhi - mlo) 1); [|right; reflexivity].
    left. rewrite index_nil. reflexivity.
Qed.

Lemma calculateByCurve_short_curve data curve mach :
  (length curve < 2)%nat ->
  calculateByCurve data curve mach = Panic index_out_of_range.
Proof.
  intros Hn. unfold calculateByCurve, selectSegment.
  replace (Z.to_nat (Z.of_nat (length curve) - 2 - 0)) with 0%nat by lia.
  simpl. destruct (Z.gtb_spec (Z.of_nat (length curve) - 2 - 0) 1); [lia|].
  simpl. rewrite (index_negative data (Z.of_nat (length curve) - 2)) by lia.
  reflexivity.
Qed.

(** [calculateByCurve] panics on a curve of fewer than two segments,
    whatever the table and the Mach, and on an empty table, whatever the
    curve. *)
Theorem calculateByCurve_short data curve mach :
  (length curve < 2)%nat \/ data = [] ->
  calculateByCurve data curve mach = Panic index_out_of_range.
Proof.
  intros [Hn| ->]; [apply calculateByCurve_short_curve; exact Hn|].
  unfold calculateByCurve, selectSegment.
  destruct (searchLoop_nil mach (Z.to_nat (Z.of_nat (length curve) - 2 - 0)) 0%Z
              (Z.of_nat (length curve) - 2)%Z ltac:(lia)) as [-> | ->]; simpl.
  - reflexivity.
  - rewrite index_nil. reflexivity.
Qed.

Lemma index_take {A : Type} (k : nat) (l : list A) (i : Z) :
  (i < Z.of_nat k)%Z -> index (take k l) i = index l i.
Proof.
  intros Hi. unfold index. destruct (0 <=? i)%Z eqn:E; [|reflexivity].
  apply Z.leb_le in E. rewrite lookup_take_lt by lia. reflexivity.
Qed.

Lemma searchLoop_take (k : nat) data mach : forall fuel mlo mhi,
  (mhi < Z.of_nat k)%Z ->
  searchLoop fuel (take k data) mach mlo mhi = searchLoop fuel data mach mlo mhi.
Proof.
  induction fuel as [|fuel IH]; intros mlo mhi Hk; simpl; [reflexivity|].
  destruct (Z.gtb_spec (mhi - mlo) 1) as [Hw|Hw]; [|reflexivity].
  assert (Hmid : (mlo < (mhi + mlo) / 2 < mhi)%Z).
  { clear -Hw. Z.div_mod_to_equations. lia. }
  rewrite index_take by lia.
  destruct (index data ((mhi + mlo) / 2)) as [d| | |]; simpl; try reflexivity.
  destruct (DataPoint.A d <? mach); apply IH; lia.
Qed.

(** The interval the loop returns lies inside the one it starts from. *)
Lemma searchLoop_inside data mach : forall fuel mlo mhi lo hi,
  (mlo <= mhi)%Z -> searchLoop fuel data mach mlo mhi = Ok (lo, hi) ->
  (mlo <= lo <= hi)%Z /\ (hi <= mhi)%Z.
Proof.
  induction fuel as [|fuel IH]; intros mlo mhi lo hi Hle; simpl.
  - destruct (Z.gtb_spec (mhi - mlo) 1); [discriminate|]. intros [= <- <-]. lia.
  - destruct (Z.gtb_spec (mhi - mlo) 1) as [Hw|Hw]; [|intros [= <- <-]; lia].
    assert (Hmid : (mlo < (mhi + mlo) / 2 < mhi)%Z).
    { clear -Hw. Z.div_mod_to_equations. lia. }
    destruct (index data ((mhi + mlo) / 2)) as [d| | |]; simpl; try discriminate.
    destruct (DataPoint.A d <? mach); intros Hs; apply IH in Hs; lia.
Qed.

Lemma calculateByCurve_take data curve mach :
  calculateByCurve (take (length curve - 1) data) curve mach
  = calculateByCurve data curve mach.
Proof.
  destruct (decide (length curve < 2)%nat) as [Hn|Hn].
  { rewrite !calculateByCurve_short_curve by exact Hn. reflexivity. }
  unfold calculateByCurve, selectSegment.
  rewrite searchLoop_take by lia.
  destruct (searchLoop _ data mach 0%Z _) as [[lo hi]| | |] eqn:Hs; simpl;
    try reflexivity.
  apply searchLoop_inside in Hs; [|lia].
  rewrite !index_take by lia. reflexivity.
Qed.

(** [calculateByCurve] never reads the last sample of the table: two
    tables that agree on the samples before index [len(curve) - 1] give
    the same result with the same curve, at every Mach. *)
Theorem calculateByCurve_ignores_last_sample data data' curve mach :
  take (length curve - 1) data = take (length curve - 1) data' ->
  calculateByCurve data curve mach = calculateByCurve data' curve mach.
Proof.
  intros E.
  rewrite <- (calculateByCurve_take data), <- (calculateByCurve_take data'), E.
  reflexivity.
Qed.

(** One more turn of fuel changes nothing once the loop has returned. *)
Lemma searchLoop_more_fuel data mach : forall fuel mlo mhi,
  searchLoop fuel data mach mlo mhi <> OutOfFuel ->
  searchLoop (S fuel) data mach mlo mhi = searchLoop fuel data mach mlo mhi.
Proof.
  induction fuel as [|fuel IH]; intros mlo mhi Hr.
  - simpl in *. destruct (mhi - mlo >? 1)%Z; [congruence|reflexivity].
  - change (searchLoop (S (S fuel)) data mach mlo mhi)
      with (if (mhi - mlo >? 1)%Z
            then d ← index data ((mhi + mlo) / 2);
                 if DataPoint.A d <? mach
                 then searchLoop (S fuel) data mach ((mhi + mlo) / 2) mhi
                 else searchLoop (S fuel) data mach mlo ((mhi + mlo) / 2)
            else Ok (mlo, mhi)).
    simpl in Hr |- *. destruct (mhi - mlo >? 1)%Z; [|reflexivity].
    destruct (index data ((mhi + mlo) / 2)) as [d| | |]; simpl in *; try reflexivity.
    destruct (DataPoint.A d <? mach); apply IH; exact Hr.
Qed.

Lemma searchLoop_fuel_le data mach mlo mhi : forall fuel fuel',
  (fuel <= fuel')%nat -> searchLoop fuel data mach mlo mhi <> OutOfFuel ->
  searchLoop fuel' data mach mlo mhi = searchLoop fuel data mach mlo mhi.
Proof.
  intros fuel fuel' Hle Hr. induction Hle as [|fuel' Hle IH]; [reflexivity|].
  rewrite searchLoop_more_fuel; [exact IH|]. rewrite IH. exact Hr.
Qed.

(** Halving: [k] turns are enough for an interval of width [2^k]. *)
Lemma searchLoop_halves data mach : forall fuel mlo mhi,
  (mhi - mlo <= 2 ^ Z.of_nat fuel)%Z ->
  searchLoop fuel data mach mlo mhi <> OutOfFuel.
Proof.
  induction fuel as [|fuel IH]; intros mlo mhi Hw; simpl.
  - change (2 ^ Z.of_nat 0)%Z with 1%Z in Hw.
    destruct (Z.gtb_spec (mhi - mlo) 1); [lia|discriminate].
  - destruct (Z.gtb_spec (mhi - mlo) 1) as [Hgt|Hgt]; [|discriminate].
    rewrite Nat2Z.inj_succ, Z.pow_succ_r in Hw by lia.
    assert (Hmid : (mhi - (mhi + mlo) / 2 <= 2 ^ Z.of_nat fuel
                    /\ (mhi + mlo) / 2 - mlo <= 2 ^ Z.of_nat fuel)%Z).
    { revert Hw. generalize (2 ^ Z.of_nat fuel)%Z. intros P Hw.
      Z.div_mod_to_equations. lia. }
    destruct (index data ((mhi + mlo) / 2)) as [d| | |] eqn:E; simpl; try discriminate.
    + destruct (DataPoint.A d <? mach); apply IH; lia.
    + destruct (index_fuel data _ E).
Qed.

(** The search is logarithmic: an interval of width at most [2^k] is
    narrowed in at most [k] turns of the loop; cut after [k] turns, the
    loop has returned what it returns when left to run. *)
Theorem searchLoop_logarithmic data mach (k : nat) mlo mhi :
  (mhi - mlo <= 2 ^ Z.of_nat k)%Z ->
  searchLoop k data mach mlo mhi <> OutOfFuel
  /\ forall fuel, (Z.to_nat (mhi - mlo) <= fuel)%nat ->
       searchLoop fuel data mach mlo mhi = searchLoop k data mach mlo mhi.
Proof.
  intros Hw. pose proof (searchLoop_halves data mach k mlo mhi Hw) as Hk.
  split; [exact Hk|]. intros fuel Hfuel.
  assert (Hf : searchLoop fuel data mach mlo mhi <> OutOfFuel)
    by (apply searchLoop_fuel; lia).
  rewrite <- (searchLoop_fuel_le data mach mlo mhi k (Nat.max k fuel)) by (auto; lia).
  apply eq_sym, searchLoop_fuel_le; [lia|exact Hf].
Qed.

End Edges.

(** ** The constructor, for every value and every identifier *)

Section Constructor.
Context {F : Type} `{Float64 F}.
Local Open Scope f64_scope.

Lemma dragFunctionFactory_returns (dragTable : byte) :
  (1 <= Byte.to_N dragTable <= 8)%N ->
  exists table, In table referenceTables
    /\ dragFunctionFactory dragTable = Ok (byCurve table (calculateCurve table)).
Proof.
  intros Ht.
  destruct dragTable; cbn in Ht; try lia;
    (eexists; split; [|reflexivity]; unfold referenceTables; simpl; tauto).
Qed.

(** [dragFunctionFactory] returns a drag function for the identifiers 1
    to 8, the evaluator of one of the reference tables over the curve
    fitted to it, and panics for the 248 other identifiers. *)
Theorem dragFunctionFactory_known (dragTable : byte) :
  if ((1 <=? Byte.to_N dragTable) && (Byte.to_N dragTable <=? 8))%N
  then exists table, In table referenceTables
         /\ dragFunctionFactory dragTable = Ok (byCurve table (calculateCurve table))
  else dragFunctionFactory dragTable = Panic "unknown drag table type".
Proof.
  destruct (N.leb_spec 1 (Byte.to_N dragTable)) as [H1|H1];
    [destruct (N.leb_spec (Byte.to_N dragTable) 8) as [H8|H8]|]; simpl.
  - apply dragFunctionFactory_returns. lia.
  - revert H8. clear. destruct dragTable; cbn; intros; try lia; reflexivity.
  - revert H1. clear. destruct dragTable; cbn; intros; try lia; reflexivity.
Qed.

(** The constructor returns a coefficient exactly when the identifier is
    one of 1 to 8 and the value is not [<= 0]. *)
Theorem CreateBallisticCoefficient_succeeds_iff (v : F) (dragTable : byte) :
  (exists bc, CreateBallisticCoefficient v dragTable = Ok bc)
  <-> ((1 <= Byte.to_N dragTable <= 8)%N /\ (v <=? fconst 0) = false).
Proof.
  rewrite CreateBallisticCoefficient_cases. split.
  - intros [bc Hbc].
    destruct (N.ltb_spec (Byte.to_N dragTable) 1); [discriminate|].
    destruct (v <=? fconst 0); [discriminate|].
    destruct (N.leb_spec (Byte.to_N dragTable) 8); [|discriminate].
    split; [lia|reflexivity].
  - intros [Ht ->].
    destruct (N.ltb_spec (Byte.to_N dragTable) 1); [lia|].
    destruct (N.leb_spec (Byte.to_N dragTable) 8); [|lia].
    destruct (dragFunctionFactory_returns dragTable ltac:(lia)) as (table & _ & ->).
    simpl. eauto.
Qed.

(** The order of the checks: the identifier 0 gives the unknown-table
    error whatever the value; any other identifier with a value [<= 0]
    gives the value error, for the identifiers above 8 too, whose panic a
    refused value hides. *)
Theorem CreateBallisticCoefficient_error_order (v : F) (dragTable : byte) :
  (Byte.to_N dragTable = 0%N ->
     CreateBallisticCoefficient v dragTable
     = Err "ballisticCoefficient: Unknown drag table 0")
  /\ (Byte.to_N dragTable <> 0%N -> (v <=? fconst 0) = true ->
        CreateBallisticCoefficient v dragTable
        = Err "ballisticCoefficient: Drag coefficient must be greater than zero").
Proof.
  rewrite CreateBallisticCoefficient_cases. split.
  - intros E. rewrite E. simpl.
    destruct dragTable; try discriminate E. reflexivity.
  - intros Hne ->. destruct (N.ltb_spec (Byte.to_N dragTable) 1); [lia|reflexivity].
Qed.

End Constructor.

(** ** NaN in binary64 *)

Section NaN.
Local Open Scope f64_scope.
Implicit Types (data : list (DataPoint.t b64)) (curve : list (CurvePoint.t b64)).

Lemma SFdiv_nan (x : b64) : SFdiv 53 1024 x S754_nan = S754_nan.
Proof. destruct x; reflexivity. Qed.

Lemma evalSegment_nan (c : CurvePoint.t b64) : evalSegment c S754_nan = S754_nan.
Proof.
  destruct c as [a b c]. unfold evalSegment. cbn.
  replace (SFmul 53 1024 a S754_nan) with S754_nan by (destruct a; reflexivity).
  replace (SFadd 53 1024 b S754_nan) with S754_nan by (destruct b; reflexivity).
  cbn. destruct c; reflexivity.
Qed.

(** A NaN Mach is not refused: no comparison with it holds, the search
    falls to the low end of the table, and the value returned is NaN. *)
Theorem calculateByCurve_nan data curve :
  length data = length curve -> (2 <= length curve)%nat ->
  selectSegment data curve S754_nan = Ok (Z.min 1 (Z.of_nat (length curve) - 2))
  /\ calculateByCurve data curve S754_nan = Ok S754_nan.
Proof.
  intros Hlen Hn.
  destruct (selectSegment_invariant
              (fun lo hi => lo = 0%Z /\ (Z.min 1 (Z.of_nat (length curve) - 2) <= hi)%Z)
              data curve S754_nan)
    as (lo & hi & dlo & dhi & [-> Hmin] & Hlohi & Hhi & Hw & Hdlo & Hdhi & Hsel);
    [|lia|lia|split; [reflexivity|lia]|].
  { intros lo hi d [-> Hhi] Hw _.
    replace (DataPoint.A d <? S754_nan) with false by (destruct (DataPoint.A d); reflexivity).
    split; [reflexivity|]. Z.div_mod_to_equations. lia. }
  assert (Hsel' : selectSegment data curve S754_nan = Ok hi).
  { rewrite Hsel. cbn. reflexivity. }
  assert (Ehi : hi = Z.min 1 (Z.of_nat (length curve) - 2)) by lia.
  split; [rewrite Hsel', Ehi; reflexivity|].
  unfold calculateByCurve. rewrite Hsel'. cbn [mbind result_bind].
  destruct (index_in_range curve hi) as (c & -> & _); [lia|].
  cbn [mbind result_bind]. rewrite evalSegment_nan. reflexivity.
Qed.

(** A NaN value is not refused either, [NaN <= 0] being false: for each
    of the identifiers 1 to 8 the constructor returns a coefficient, and
    its [Drag] is NaN at every Mach. *)
Theorem CreateBallisticCoefficient_nan (dragTable : byte) (mach : b64) :
  (1 <= Byte.to_N dragTable <= 8)%N ->
  exists bc, @CreateBallisticCoefficient b64 _ S754_nan dragTable = Ok bc
             /\ Drag bc mach = Ok S754_nan.
Proof.
  intros Ht. rewrite CreateBallisticCoefficient_cases.
  destruct (N.ltb_spec (Byte.to_N dragTable) 1); [lia|].
  destruct (N.leb_spec (Byte.to_N dragTable) 8); [|lia].
  change (S754_nan <=? fconst 0) with false. cbv iota.
  destruct (dragFunctionFactory_returns (F:=b64) dragTable Ht) as (table & Hin & Hf).
  eexists. rewrite Hf. cbn [mbind result_bind]. split; [reflexivity|].
  destruct (byCurve_total table mach (referenceTables_length _ Hin))
    as (curve & d & _ & _ & _ & Hd).
  unfold Drag. cbn [BallisticCoefficient.drag BallisticCoefficient.value].
  rewrite Hd. cbn [mbind result_bind]. f_equal. exact (SFdiv_nan _).
Qed.

End NaN.

(** ** The search, in any arithmetic and in binary64 *)

Section Bracket.
Context {F : Type} `{Float64 F}.
Local Open Scope f64_scope.

(** The bracket the search ends on, for an invariant [I] that the loop
    keeps: [calculateByCurve] evaluates the segment [lo] when the
    difference to the sample [hi] is the greater one, the segment [hi]
    otherwise. *)
Lemma calculateByCurve_invariant (I : Z -> Z -> Prop) data curve mach :
  (forall lo hi d, I lo hi -> (1 < hi - lo)%Z ->
     data !! Z.to_nat ((hi + lo) / 2) = Some d ->
     if DataPoint.A d <? mach then I ((hi + lo) / 2)%Z hi else I lo ((hi + lo) / 2)%Z) ->
  length data = length curve -> (2 <= length curve)%nat ->
  I 0%Z (Z.of_nat (length curve) - 2)%Z ->
  exists lo hi dlo dhi c,
    I lo hi
    /\ (0 <= lo <= hi)%Z /\ (hi <= Z.of_nat (length curve) - 2)%Z /\ (hi - lo <= 1)%Z
    /\ data !! Z.to_nat lo = Some dlo /\ data !! Z.to_nat hi = Some dhi
    /\ curve !! Z.to_nat (if (DataPoint.A dhi - mach) >? (mach - DataPoint.A dlo)
                          then lo else hi) = Some c
    /\ calculateByCurve data curve mach = Ok (evalSegment c mach).
Proof.
  intros Hstep Hlen Hn HI.
  destruct (selectSegment_invariant I data curve mach Hstep Hn ltac:(lia) HI)
    as (lo & hi & dlo & dhi & HI' & Hr & Hr' & Hw & Hdlo & Hdhi & Hsel).
  set (m := if (DataPoint.A dhi - mach) >? (mach - DataPoint.A dlo) then lo else hi)
    in *.
  destruct (index_in_range curve m) as (c & Hc & Hc').
  { subst m. destruct (_ <? _); lia. }
  exists lo, hi, dlo, dhi, c.
  split; [exact HI'|]. split; [exact Hr|]. split; [exact Hr'|]. split; [exact Hw|].
  split; [exact Hdlo|]. split; [exact Hdhi|]. split; [exact Hc'|].
  unfold calculateByCurve. rewrite Hsel. simpl. rewrite Hc. reflexivity.
Qed.

(** In any arithmetic, without any assumption on the table: the search
    ends on two indices [lo <= hi <= n-2] at most one apart; the sample
    at [lo] is below the Mach unless [lo] is still 0, the sample at [hi]
    is not below it unless [hi] is still [n-2]; and the segment evaluated
    is [lo] when [data[hi].A - mach > mach - data[lo].A] in that
    arithmetic, [hi] otherwise. *)
Theorem calculateByCurve_bracket data curve mach :
  length data = length curve -> (2 <= length curve)%nat ->
  exists lo hi dlo dhi c,
    (0 <= lo <= hi)%Z /\ (hi <= Z.of_nat (length curve) - 2)%Z /\ (hi - lo <= 1)%Z
    /\ data !! Z.to_nat lo = Some dlo /\ data !! Z.to_nat hi = Some dhi
    /\ (lo = 0%Z \/ (DataPoint.A dlo <? mach) = true)
    /\ (hi = (Z.of_nat (length curve) - 2)%Z \/ (DataPoint.A dhi <? mach) = false)
    /\ curve !! Z.to_nat (if (DataPoint.A dhi - mach) >? (mach - DataPoint.A dlo)
                          then lo else hi) = Some c
    /\ calculateByCurve data curve mach = Ok (evalSegment c mach).
Proof.
  intros Hlen Hn.
  destruct (calculateByCurve_invariant
              (fun lo hi =>
                 (lo = 0%Z \/ exists d, data !! Z.to_nat lo = Some d
                                        /\ (DataPoint.A d <? mach) = true)
                 /\ (hi = (Z.of_nat (length curve) - 2)%Z
                     \/ exists d, data !! Z.to_nat hi = Some d
                                  /\ (DataPoint.A d <? mach) = false))
              data curve mach)
    as (lo & hi & dlo & dhi & c & [Hlo Hhi] & Hr & Hr' & Hw & Hdlo & Hdhi & Hc & Hv).
  { intros lo hi d [Hl Hh] Hw Hd.
    destruct (DataPoint.A d <? mach) eqn:E; split; eauto. }
  { assumption. } { assumption. } { split; left; reflexivity. }
  exists lo, hi, dlo, dhi, c.
  split; [exact Hr|]. split; [exact Hr'|]. split; [exact Hw|].
  split; [exact Hdlo|]. split; [exact Hdhi|].
  split. { destruct Hlo as [?|(d & Hd & E)]; [left; assumption|right; congruence]. }
  split. { destruct Hhi as [?|(d & Hd & E)]; [left; assumption|right; congruence]. }
  split; [exact Hc | exact Hv].
Qed.
End Bracket.

(** ** Rounding in binary64 *)

Section Rounding.

(** [digits2_pos m] is the number of binary digits of [m]. *)
Lemma digits2_pos_bounds (m : positive) :
  2 ^ (Zpos (digits2_pos m) - 1) <= Zpos m < 2 ^ Zpos (digits2_pos m).
Proof.
  induction m as [m IH|m IH|]; cbn [digits2_pos].
  - rewrite Pos2Z.inj_succ.
    replace (Z.succ (Zpos (digits2_pos m)) - 1) with (Z.succ (Zpos (digits2_pos m) - 1)) by lia.
    rewrite !Z.pow_succ_r by lia. lia.
  - rewrite Pos2Z.inj_succ.
    replace (Z.succ (Zpos (digits2_pos m)) - 1) with (Z.succ (Zpos (digits2_pos m) - 1)) by lia.
    rewrite !Z.pow_succ_r by lia. lia.
  - simpl. lia.
Qed.

(** A valid finite number has an exponent of at least -1074 and a
    mantissa below 2^53, of exactly 53 bits unless the exponent is -1074. *)
Lemma valid_finite s m e :
  valid (S754_finite s m e) = true ->
  -1074 <= e /\ Zpos m < 2 ^ 53 /\ (-1074 < e -> 2 ^ 52 <= Zpos m).
Proof.
  unfold valid, valid_binary, bounded, canonical_mantissa, fexp, emin.
  intros Hv. apply andb_prop in Hv as [Hc _]. apply Z.eqb_eq in Hc.
  pose proof (digits2_pos_bounds m) as [Hlo Hhi].
  assert (Hd : Zpos (digits2_pos m) <= 53) by lia.
  split; [lia|]. split.
  - eapply Z.lt_le_trans; [exact Hhi|]. apply Z.pow_le_mono_r; lia.
  - intros He. assert (Zpos (digits2_pos m) = 53) as E by lia.
    rewrite E in Hlo. exact Hlo.
Qed.

(** Aligning to a smaller exponent multiplies the mantissa by a power of 2. *)
Lemma shl_align_value (m : positive) (e ez : Z) :
  ez <= e -> Zpos (fst (shl_align m e ez)) = Zpos m * 2 ^ (e - ez).
Proof.
  intros Hle. unfold shl_align.
  destruct (ez - e) as [|d|d] eqn:E; try lia.
  - replace (e - ez) with 0 by lia. simpl. lia.
  - cbn [fst]. replace (e - ez) with (Zpos d) by lia.
    change (Pos.iter xO m d) with (shift_pos d m).
    rewrite shift_pos_correct. rewrite Zpower_pos_nat, Zpower_nat_Z, positive_nat_Z. lia.
Qed.

(** The comparison agrees with the aligned mantissas: of two valid finite
    numbers, the smaller one has the smaller signed mantissa once both are
    written with the smaller of the two exponents. *)
Lemma aligned_lt sx mx ex sy my ey :
  valid (S754_finite sx mx ex) = true -> valid (S754_finite sy my ey) = true ->
  SFltb (S754_finite sy my ey) (S754_finite sx mx ex) = true ->
  cond_Zopp sy (Zpos (fst (shl_align my ey (Z.min ex ey))))
  < cond_Zopp sx (Zpos (fst (shl_align mx ex (Z.min ex ey)))).
Proof.
  intros Hx Hy Hlt.
  apply valid_finite in Hx as (Hex & Hmx & Hnx).
  apply valid_finite in Hy as (Hey & Hmy & Hny).
  rewrite !shl_align_value by lia.
  assert (Hp : forall k, 0 < k -> 2 * 1 <= 2 ^ k).
  { intros k Hk. replace k with (Z.succ (k - 1)) by lia.
    rewrite Z.pow_succ_r by lia.
    assert (0 < 2 ^ (k - 1)) by (apply Z.pow_pos_nonneg; lia). lia. }
  unfold SFltb, SFcompare in Hlt. revert Hlt.
  change (Pos.compare_cont Eq) with Pos.compare.
  destruct sx, sy; try discriminate; cbn [cond_Zopp];
    destruct (Z.compare_spec ey ex) as [E|E|E]; try discriminate; intros Hlt.
  - (* both negative, equal exponents *)
    subst. rewrite Z.min_id, Z.sub_diag. simpl (2 ^ 0).
    destruct (Pos.compare_spec my mx); try discriminate. lia.
  - (* both negative, ex < ey *)
    rewrite Z.min_l by lia. rewrite Z.sub_diag. simpl (2 ^ 0).
    specialize (Hp (ey - ex) ltac:(lia)). specialize (Hny ltac:(lia)). nia.
  - (* y negative, x positive *)
    assert (0 < 2 ^ (ey - Z.min ex ey)) by (apply Z.pow_pos_nonneg; lia).
    assert (0 < 2 ^ (ex - Z.min ex ey)) by (apply Z.pow_pos_nonneg; lia). nia.
  - assert (0 < 2 ^ (ey - Z.min ex ey)) by (apply Z.pow_pos_nonneg; lia).
    assert (0 < 2 ^ (ex - Z.min ex ey)) by (apply Z.pow_pos_nonneg; lia). nia.
  - assert (0 < 2 ^ (ey - Z.min ex ey)) by (apply Z.pow_pos_nonneg; lia).
    assert (0 < 2 ^ (ex - Z.min ex ey)) by (apply Z.pow_pos_nonneg; lia). nia.
  - (* both positive, equal exponents *)
    subst. rewrite Z.min_id, Z.sub_diag. simpl (2 ^ 0).
    destruct (Pos.compare_spec my mx); try discriminate. lia.
  - (* both positive, ey < ex *)
    rewrite Z.min_r by lia. rewrite Z.sub_diag. simpl (2 ^ 0).
    specialize (Hp (ex - ey) ltac:(lia)). specialize (Hnx ltac:(lia)). nia.
Qed.

(** Shifting right drops one binary digit at a time. *)
Lemma shr_1_digits (mrs : shr_record) :
  0 <= shr_m mrs ->
  0 <= shr_m (shr_1 mrs)
  /\ Zdigits2 (shr_m (shr_1 mrs)) = Z.max 0 (Zdigits2 (shr_m mrs) - 1).
Proof.
  destruct mrs as [[|[p|p|]|p] r s]; cbn; intros Hm; try lia.
Qed.

Lemma iter_shr_digits (p : positive) : forall mrs : shr_record,
  0 <= shr_m mrs ->
  0 <= shr_m (SpecFloat.iter_pos shr_1 p mrs)
  /\ Zdigits2 (shr_m (SpecFloat.iter_pos shr_1 p mrs)) = Z.max 0 (Zdigits2 (shr_m mrs) - Zpos p).
Proof.
  induction p as [p IH|p IH|]; intros mrs Hm; cbn [SpecFloat.iter_pos].
  - destruct (shr_1_digits mrs Hm) as [H1 E1].
    destruct (IH _ H1) as [H2 E2]. destruct (IH _ H2) as [H3 E3].
    split; [exact H3|]. rewrite E3, E2, E1. lia.
  - destruct (IH _ Hm) as [H2 E2]. destruct (IH _ H2) as [H3 E3].
    split; [exact H3|]. rewrite E3, E2. lia.
  - apply shr_1_digits. exact Hm.
Qed.

Lemma Zdigits2_pos (m : Z) : 0 <= m -> 0 < Zdigits2 m -> 0 < m.
Proof. destruct m; simpl; lia. Qed.

Lemma Zdigits2_of_pos (m : Z) : 0 < m -> 0 < Zdigits2 m.
Proof. destruct m; simpl; lia. Qed.

(** A positive mantissa at an exponent not below [emin] stays positive
    when it is shifted to its canonical exponent. *)
Lemma shr_fexp_positive (m e : Z) (l : location) :
  0 < m -> -1074 <= e ->
  0 < shr_m (fst (shr_fexp 53 1024 m e l)) /\ -1074 <= snd (shr_fexp 53 1024 m e l).
Proof.
  intros Hm He. unfold shr_fexp, shr.
  assert (Hr : shr_m (shr_record_of_loc m l) = m) by (destruct l as [|[]]; reflexivity).
  pose proof (Zdigits2_of_pos m Hm) as Hd.
  destruct (fexp 53 1024 (Zdigits2 m + e) - e) as [|p|p] eqn:E; cbn [fst snd].
  - rewrite Hr. lia.
  - destruct (iter_shr_digits p (shr_record_of_loc m l)) as [H0 Hdig]; [rewrite Hr; lia|].
    rewrite Hr in Hdig. split; [|lia].
    apply Zdigits2_pos; [exact H0|]. rewrite Hdig.
    unfold fexp, emin in E. lia.
  - rewrite Hr. lia.
Qed.

Lemma round_nearest_even_positive (m : Z) (l : location) :
  0 < m -> 0 < round_nearest_even m l.
Proof. intros Hm. destruct l as [|[]]; cbn; try destruct (Z.even m); lia. Qed.

(** Rounding a positive mantissa at an exponent not below -1074 gives a
    finite number or an infinity of the given sign, never a zero. *)
Lemma binary_round_aux_sign (s : bool) (m e : Z) (l : location) :
  0 < m -> -1074 <= e ->
  binary_round_aux 53 1024 s m e l = S754_infinity s
  \/ exists m' e', binary_round_aux 53 1024 s m e l = S754_finite s m' e'.
Proof.
  intros Hm He. unfold binary_round_aux.
  destruct (shr_fexp_positive m e l Hm He) as [H1 He1].
  destruct (shr_fexp 53 1024 m e l) as [mrs' e'] eqn:E1. cbn [fst snd] in H1, He1.
  pose proof (round_nearest_even_positive (shr_m mrs') (loc_of_shr_record mrs') H1) as H2.
  destruct (shr_fexp_positive _ e' loc_Exact H2 He1) as [H3 _].
  destruct (shr_fexp 53 1024 _ e' loc_Exact) as [mrs'' e''] eqn:E2. cbn [fst] in H3.
  destruct (shr_m mrs'') as [|q|q]; try lia.
  destruct (e'' <=? 1024 - 53); [right; eauto | left; reflexivity].
Qed.

Lemma binary_round_sign (s : bool) (m : positive) (e : Z) :
  -1074 <= e ->
  binary_round 53 1024 s m e = S754_infinity s
  \/ exists m' e', binary_round 53 1024 s m e = S754_finite s m' e'.
Proof.
  intros He. unfold binary_round.
  destruct (shl_align m e (fexp 53 1024 (Zpos (digits2_pos m) + e))) as [mz ez] eqn:E.
  assert (Hez : -1074 <= ez).
  { unfold shl_align in E.
    destruct (fexp 53 1024 (Zpos (digits2_pos m) + e) - e) eqn:E'; inversion E; subst;
      try lia. unfold fexp, emin. lia. }
  apply binary_round_aux_sign; lia.
Qed.

Lemma SFsub_finite_positive sx mx ex sy my ey :
  valid (S754_finite sx mx ex) = true -> valid (S754_finite sy my ey) = true ->
  SFltb (S754_finite sy my ey) (S754_finite sx mx ex) = true ->
  SFltb plusZero (SFsub 53 1024 (S754_finite sx mx ex) (S754_finite sy my ey)) = true.
Proof.
  intros Hx Hy Hlt.
  pose proof (aligned_lt _ _ _ _ _ _ Hx Hy Hlt) as HD.
  apply valid_finite in Hx as (Hex & _). apply valid_finite in Hy as (Hey & _).
  cbn [SFsub].
  destruct (cond_Zopp sx (Zpos (fst (shl_align mx ex (Z.min ex ey))))
            - cond_Zopp sy (Zpos (fst (shl_align my ey (Z.min ex ey))))) as [|d|d] eqn:E;
    try lia.
  cbn [binary_normalize].
  destruct (binary_round_sign false d (Z.min ex ey)) as [->|(m' & e' & ->)];
    [lia|reflexivity|reflexivity].
Qed.

Lemma SFsub_finite_negative sx mx ex sy my ey :
  valid (S754_finite sx mx ex) = true -> valid (S754_finite sy my ey) = true ->
  SFltb (S754_finite sy my ey) (S754_finite sx mx ex) = true ->
  SFltb (SFsub 53 1024 (S754_finite sy my ey) (S754_finite sx mx ex)) plusZero = true.
Proof.
  intros Hx Hy Hlt.
  pose proof (aligned_lt _ _ _ _ _ _ Hx Hy Hlt) as HD.
  apply valid_finite in Hx as (Hex & _). apply valid_finite in Hy as (Hey & _).
  cbn [SFsub]. rewrite (Z.min_comm ey ex).
  destruct (cond_Zopp sy (Zpos (fst (shl_align my ey (Z.min ex ey))))
            - cond_Zopp sx (Zpos (fst (shl_align mx ex (Z.min ex ey))))) as [|d|d] eqn:E;
    try lia.
  cbn [binary_normalize].
  destruct (binary_round_sign true d (Z.min ex ey)) as [->|(m' & e' & ->)];
    [lia|reflexivity|reflexivity].
Qed.

(** The difference of two valid numbers, the greater one first, is
    positive: rounding does not take it to zero. *)
Lemma SFsub_positive (x y : b64) :
  valid x = true -> valid y = true -> SFltb y x = true ->
  SFltb plusZero (SFsub 53 1024 x y) = true.
Proof.
  intros Hx Hy Hlt.
  destruct x as [sx|sx| |sx mx ex], y as [sy|sy| |sy my ey];
    try (apply SFsub_finite_positive; assumption);
    try destruct sx; try destruct sy; try discriminate Hlt; reflexivity.
Qed.

(** The other way round it is negative. *)
Lemma SFsub_negative (x y : b64) :
  valid x = true -> valid y = true -> SFltb y x = true ->
  SFltb (SFsub 53 1024 y x) plusZero = true.
Proof.
  intros Hx Hy Hlt.
  destruct x as [sx|sx| |sx mx ex], y as [sy|sy| |sy my ey];
    try (apply SFsub_finite_negative; assumption);
    try destruct sx; try destruct sy; try discriminate Hlt; reflexivity.
Qed.

End Rounding.

(** ** The search in binary64 *)

Section Binary64Search.
Local Open Scope f64_scope.

(** The comparison of binary64 is transitive on all values, NaN and the
    infinities included. *)
Lemma SFltb_trans (x y z : b64) :
  SFltb x y = true -> SFltb y z = true -> SFltb x z = true.
Proof.
  unfold SFltb, SFcompare.
  destruct x as [sx|sx| |sx mx ex], y as [sy|sy| |sy my ey], z as [sz|sz| |sz mz ez];
    try destruct sx; try destruct sy; try destruct sz;
    try discriminate; try reflexivity;
    change (Pos.compare_cont Eq) with Pos.compare;
    destruct (Z.compare_spec ex ey); try discriminate;
    destruct (Z.compare_spec ey ez); try discriminate;
    destruct (Z.compare_spec ex ez); try reflexivity; try lia;
    subst;
    destruct (Pos.compare_spec mx my); try discriminate;
    destruct (Pos.compare_spec my mz); try discriminate;
    destruct (Pos.compare_spec mx mz); try reflexivity; lia.
Qed.

Lemma increasing_mono_binary64 (data : list (DataPoint.t b64)) (i j : nat) p q :
  increasing data -> (i < j)%nat ->
  data !! i = Some p -> data !! j = Some q ->
  (DataPoint.A p <? DataPoint.A q) = true.
Proof.
  intros Hinc Hij Hp. revert q. induction Hij as [|j Hij IH]; intros q Hq.
  - exact (Hinc i p q Hp Hq).
  - destruct (lookup_lt_is_Some_2 data j) as [r Hr].
    { apply lookup_lt_Some in Hq. lia. }
    apply (SFltb_trans _ (DataPoint.A r)); [exact (IH r Hr)|].
    exact (Hinc j r q Hr Hq).
Qed.

Lemma finite_valid (x : b64) : finite x = true -> valid x = true.
Proof. destruct x; try discriminate; auto. Qed.

Lemma SFltb_irrefl (x : b64) : SFltb x x = false.
Proof.
  unfold SFltb, SFcompare. destruct x as [s|s| |s m e]; try destruct s; try reflexivity;
    change (Pos.compare_cont Eq) with Pos.compare;
    rewrite Z.compare_refl, Pos.compare_refl; reflexivity.
Qed.

Lemma SFltb_asym (x y : b64) : SFltb x y = true -> SFltb y x = false.
Proof.
  intros Hxy. destruct (SFltb y x) eqn:Hyx; [|reflexivity].
  pose proof (SFltb_trans x y x Hxy Hyx) as Hxx.
  rewrite SFltb_irrefl in Hxx. discriminate.
Qed.

(** A finite number minus itself is [+0]. *)
Lemma SFsub_finite_diag (x : b64) : finite x = true -> SFsub 53 1024 x x = plusZero.
Proof.
  destruct x as [s|s| |s m e]; try discriminate; intros _.
  - destruct s; reflexivity.
  - cbn [SFsub]. rewrite Z.sub_diag. reflexivity.
Qed.

Lemma separates_step (data : list (DataPoint.t b64)) mach top lo hi d :
  increasing data ->
  separates data mach top lo hi -> (1 < hi - lo)%Z ->
  data !! Z.to_nat ((hi + lo) / 2) = Some d ->
  if DataPoint.A d <? mach then separates data mach top ((hi + lo) / 2) hi
  else separates data mach top lo ((hi + lo) / 2).
Proof.
  intros Hinc (Hlo0 & Hl & Hh) Hw Hd.
  assert (Hmid : (lo < (hi + lo) / 2 < hi)%Z)
    by (clear -Hw; Z.div_mod_to_equations; lia).
  destruct (DataPoint.A d <? mach) eqn:E.
  - split; [lia|]. split; [|exact Hh]. right. intros j d' Hj Hd'.
    destruct (decide (j = Z.to_nat ((hi + lo) / 2))) as [->|Hne].
    + congruence.
    + apply (SFltb_trans _ (DataPoint.A d)); [|exact E].
      apply (increasing_mono_binary64 data j (Z.to_nat ((hi + lo) / 2))); auto. lia.
  - split; [lia|]. split; [exact Hl|]. right. intros j d' Hj Hd'.
    destruct (decide (j = Z.to_nat ((hi + lo) / 2))) as [->|Hne].
    + congruence.
    + destruct (DataPoint.A d' <? mach) eqn:E'; [|reflexivity].
      rewrite <- E. symmetry. apply (SFltb_trans _ (DataPoint.A d')); [|exact E'].
      apply (increasing_mono_binary64 data (Z.to_nat ((hi + lo) / 2)) j); auto. lia.
Qed.

(** What the search ends on, on a table of strictly increasing Mach. *)
Lemma search_separates (data : list (DataPoint.t b64)) curve mach :
  increasing data -> length data = length curve -> (2 <= length curve)%nat ->
  exists lo hi dlo dhi c,
    separates data mach (Z.of_nat (length curve) - 2) lo hi
    /\ (0 <= lo <= hi)%Z /\ (hi <= Z.of_nat (length curve) - 2)%Z /\ (hi - lo <= 1)%Z
    /\ data !! Z.to_nat lo = Some dlo /\ data !! Z.to_nat hi = Some dhi
    /\ curve !! Z.to_nat (if (DataPoint.A dhi - mach) >? (mach - DataPoint.A dlo)
                          then lo else hi) = Some c
    /\ calculateByCurve data curve mach = Ok (evalSegment c mach).
Proof.
  intros Hinc Hlen Hn.
  apply (calculateByCurve_invariant
           (separates data mach (Z.of_nat (length curve) - 2)) data curve mach);
    try assumption.
  - intros lo hi d. apply separates_step. exact Hinc.
  - split; [lia|]. split; left; reflexivity.
Qed.

(** In binary64, on a table of strictly increasing Mach, the two indices
    the search ends on separate the samples: unless [lo] is still 0 every
    sample up to [lo] is below the Mach, and unless [hi] is still [n-2]
    no sample from [hi] on is below it.  The segment evaluated is the
    one of [lo] or of [hi], chosen by comparing the rounded differences
    [data[hi].A - mach] and [mach - data[lo].A]. *)
Theorem calculateByCurve_between_samples (data : list (DataPoint.t b64)) curve mach :
  increasing data -> length data = length curve -> (2 <= length curve)%nat ->
  exists lo hi dlo dhi c,
    (0 <= lo <= hi)%Z /\ (hi <= Z.of_nat (length curve) - 2)%Z /\ (hi - lo <= 1)%Z
    /\ data !! Z.to_nat lo = Some dlo /\ data !! Z.to_nat hi = Some dhi
    /\ (lo = 0%Z
        \/ forall (j : nat) d, (j <= Z.to_nat lo)%nat -> data !! j = Some d ->
                               (DataPoint.A d <? mach) = true)
    /\ (hi = (Z.of_nat (length curve) - 2)%Z
        \/ forall (j : nat) d, (Z.to_nat hi <= j)%nat -> data !! j = Some d ->
                               (DataPoint.A d <? mach) = false)
    /\ curve !! Z.to_nat (if (DataPoint.A dhi - mach) >? (mach - DataPoint.A dlo)
                          then lo else hi) = Some c
    /\ calculateByCurve data curve mach = Ok (evalSegment c mach).
Proof.
  intros Hinc Hlen Hn.
  destruct (search_separates data curve mach Hinc Hlen Hn)
    as (lo & hi & dlo & dhi & c & (_ & Hlo & Hhi) & Hr & Hr' & Hw & Hdlo & Hdhi & Hc & Hv).
  exists lo, hi, dlo, dhi, c. auto 10.
Qed.

(** In binary64, on a table of finite, strictly increasing Mach, at the
    Mach of a sample [i <= n-2] the evaluator takes the segment [i]. *)
Theorem calculateByCurve_at_sample (data : list (DataPoint.t b64)) curve (i : nat) p :
  finiteTable data -> increasing data ->
  length data = length curve -> (2 <= length curve)%nat ->
  (i <= length curve - 2)%nat -> data !! i = Some p ->
  exists c, curve !! i = Some c
            /\ calculateByCurve data curve (DataPoint.A p)
               = Ok (evalSegment c (DataPoint.A p)).
Proof.
  intros Hfin Hinc Hlen Hn Hi Hp.
  destruct (search_separates data curve (DataPoint.A p) Hinc Hlen Hn)
    as (lo & hi & dlo & dhi & c & (_ & Hlo & Hhi) & Hr & Hr' & Hw & Hdlo & Hdhi & Hc & Hv).
  assert (Hlo' : lo = 0%Z \/ (Z.to_nat lo < i)%nat).
  { destruct Hlo as [?|Hlo]; [left; assumption|]. right.
    destruct (le_lt_dec i (Z.to_nat lo)) as [Hle|?]; [|assumption].
    specialize (Hlo i p Hle Hp). rewrite SFltb_irrefl in Hlo. discriminate. }
  assert (Hhi' : (i <= Z.to_nat hi)%nat).
  { destruct Hhi as [->|Hhi]; [lia|].
    destruct (le_lt_dec i (Z.to_nat hi)) as [?|Hlt]; [assumption|].
    specialize (Hhi (Z.to_nat hi) dhi ltac:(lia) Hdhi).
    rewrite (increasing_mono_binary64 data (Z.to_nat hi) i dhi p) in Hhi; auto.
    discriminate. }
  exists c. split; [|exact Hv].
  assert (Hsel : (if (DataPoint.A dhi - DataPoint.A p) >? (DataPoint.A p - DataPoint.A dlo)
                  then lo else hi) = Z.of_nat i).
  { cbn [fltb fsub binary64].
    destruct (decide (Z.to_nat hi = i)) as [Ehi|Nhi].
    - (* the sample is the upper end *)
      assert (dhi = p) by congruence. subst dhi.
      rewrite (SFsub_finite_diag (DataPoint.A p)) by (eapply Hfin; eassumption).
      destruct (decide (lo = hi)) as [->|Nlo].
      + destruct (SFltb _ _); lia.
      + assert (Hlt : (DataPoint.A dlo <? DataPoint.A p) = true).
        { apply (increasing_mono_binary64 data (Z.to_nat lo) i); auto. lia. }
        pose proof (SFsub_positive (DataPoint.A p) (DataPoint.A dlo)
                      (finite_valid _ (Hfin _ _ Hp)) (finite_valid _ (Hfin _ _ Hdlo)) Hlt)
          as Hpos.
        rewrite (SFltb_asym _ _ Hpos). lia.
    - (* the sample is the lower end, which is then the first sample *)
      assert (Elo : Z.to_nat lo = i) by lia.
      assert (dlo = p) by congruence. subst dlo.
      rewrite (SFsub_finite_diag (DataPoint.A p)) by (eapply Hfin; eassumption).
      assert (Hlt : (DataPoint.A p <? DataPoint.A dhi) = true).
      { apply (increasing_mono_binary64 data i (Z.to_nat hi)); auto. lia. }
      rewrite (SFsub_positive (DataPoint.A dhi) (DataPoint.A p)
                 (finite_valid _ (Hfin _ _ Hdhi)) (finite_valid _ (Hfin _ _ Hp)) Hlt).
      lia. }
  rewrite Hsel in Hc. rewrite Nat2Z.id in Hc. exact Hc.
Qed.

(** In binary64, on a table of finite, strictly increasing Mach: below
    the first sample the evaluator takes segment 0, and above the sample
    [n-2] it takes segment [n-2], whatever the Mach (the infinities
    included). *)
Theorem calculateByCurve_out_of_range (data : list (DataPoint.t b64)) curve mach :
  finiteTable data -> increasing data -> valid mach = true ->
  length data = length curve -> (2 <= length curve)%nat ->
  (forall d0 c0,
     data !! 0%nat = Some d0 -> curve !! 0%nat = Some c0 ->
     (mach <? DataPoint.A d0) = true ->
     calculateByCurve data curve mach = Ok (evalSegment c0 mach))
  /\ (forall dk ck,
        data !! (length curve - 2)%nat = Some dk ->
        curve !! (length curve - 2)%nat = Some ck ->
        (DataPoint.A dk <? mach) = true ->
        calculateByCurve data curve mach = Ok (evalSegment ck mach)).
Proof.
  intros Hfin Hinc Hmach Hlen Hn.
  destruct (search_separates data curve mach Hinc Hlen Hn)
    as (lo & hi & dlo & dhi & c & (_ & Hlo & Hhi) & Hr & Hr' & Hw & Hdlo & Hdhi & Hc & Hv).
  cbn [fltb fsub binary64] in *.
  split.
  - intros d0 c0 Hd0 Hc0 Hbelow.
    assert (lo = 0%Z) as ->.
    { destruct Hlo as [?|Hlo]; [assumption|].
      specialize (Hlo 0%nat d0 ltac:(lia) Hd0).
      rewrite (SFltb_asym _ _ Hbelow) in Hlo. discriminate. }
    assert (dlo = d0) by (change (Z.to_nat 0) with 0%nat in Hdlo; congruence). subst dlo.
    assert (Hhi0 : SFltb mach (DataPoint.A dhi) = true).
    { destruct (decide (Z.to_nat hi = 0%nat)) as [E|N].
      - rewrite E in Hdhi. congruence.
      - apply (SFltb_trans _ (DataPoint.A d0)); [exact Hbelow|].
        apply (increasing_mono_binary64 data 0 (Z.to_nat hi)); auto. lia. }
    pose proof (SFsub_negative (DataPoint.A d0) mach
                  (finite_valid _ (Hfin _ _ Hd0)) Hmach Hbelow) as Hneg.
    pose proof (SFsub_positive (DataPoint.A dhi) mach
                  (finite_valid _ (Hfin _ _ Hdhi)) Hmach Hhi0) as Hpos.
    rewrite (SFltb_trans _ _ _ Hneg Hpos) in Hc.
    change (Z.to_nat 0) with 0%nat in Hc. congruence.
  - intros dk ck Hdk Hck Habove.
    assert (hi = (Z.of_nat (length curve) - 2)%Z) as ->.
    { destruct Hhi as [?|Hhi]; [assumption|].
      specialize (Hhi (length curve - 2)%nat dk ltac:(lia) Hdk). congruence. }
    replace (Z.to_nat (Z.of_nat (length curve) - 2)) with (length curve - 2)%nat in * by lia.
    assert (dhi = dk) by congruence. subst dhi.
    assert (Hlo0 : SFltb (DataPoint.A dlo) mach = true).
    { destruct (decide (Z.to_nat lo = (length curve - 2)%nat)) as [E|N].
      - rewrite E in Hdlo. congruence.
      - apply (SFltb_trans _ (DataPoint.A dk)); [|exact Habove].
        apply (increasing_mono_binary64 data (Z.to_nat lo) (length curve - 2)); auto. lia. }
    pose proof (SFsub_negative mach (DataPoint.A dk) Hmach
                  (finite_valid _ (Hfin _ _ Hdk)) Habove) as Hneg.
    pose proof (SFsub_positive mach (DataPoint.A dlo) Hmach
                  (finite_valid _ (Hfin _ _ Hdlo)) Hlo0) as Hpos.
    assert (Hcmp : SFltb (SFsub 53 1024 mach (DataPoint.A dlo))
                         (SFsub 53 1024 (DataPoint.A dk) mach) = false).
    { destruct (SFltb _ (SFsub 53 1024 (DataPoint.A dk) mach)) eqn:E; [|reflexivity].
      pose proof (SFltb_trans _ _ _ Hpos (SFltb_trans _ _ _ E Hneg)) as Hz.
      rewrite SFltb_irrefl in Hz. discriminate. }
    rewrite Hcmp in Hc.
    replace (Z.to_nat (Z.of_nat (length curve) - 2)) with (length curve - 2)%nat in Hc by lia.
    congruence.
Qed.

Lemma finiteTableb_correct (data : list (DataPoint.t b64)) :
  finiteTableb data = true -> finiteTable data.
Proof.
  unfold finiteTableb. rewrite forallb_forall. intros Hall j d Hd.
  apply Hall. apply list_elem_of_In. eapply list_elem_of_lookup_2. exact Hd.
Qed.

(** In binary64 the fitted reference curves are continuous at their
    samples up to rounding, the last segment apart: in each of the eight
    curves two adjacent segments [i], [i+1] with [i+1 <= n-2] agree
    within 1e-9 at the Mach of the samples [i] and [i+1]. *)
Theorem reference_curves_continuous :
  Forall (fun table : list (DataPoint.t b64) =>
            exists curve,
              calculateCurve table = Ok curve
              /\ forall (i : nat) s s' p q,
                   (S i <= length table - 2)%nat ->
                   curve !! i = Some s -> curve !! S i = Some s' ->
                   table !! i = Some p -> table !! S i = Some q ->
                   within (fconst 1e-9) (evalSegment s (DataPoint.A p))
                                        (evalSegment s' (DataPoint.A p)) = true
                   /\ within (fconst 1e-9) (evalSegment s (DataPoint.A q))
                                           (evalSegment s' (DataPoint.A q)) = true)
         referenceTables.
Proof.
  eapply Forall_impl; [exact adjacent_segments_agree|].
  intros table (curve & Hc & Hall). exists curve. split; [exact Hc|].
  intros i s s' p q Hi Hs Hs' Hp Hq.
  rewrite forallb_forall in Hall.
  specialize (Hall i). unfold adjacentAgreeb, agreeAt in Hall.
  rewrite Hs, Hs', Hp, Hq in Hall.
  assert (Hin : In i (seq 0 (length table - 2))) by (apply in_seq; lia).
  apply Hall in Hin. apply andb_prop in Hin as [H1 H2]. auto.
Qed.

End Binary64Search.

(** ** The evaluator in exact arithmetic *)

Section ExactEvaluator.
Local Open Scope Q_scope.
Implicit Types (data : list (DataPoint.t Q)) (curve : list (CurvePoint.t Q)) (mach : Q).

(** In exact arithmetic, on a table of strictly increasing Mach,
    [calculateByCurve] evaluates the segment of the sample nearest to the
    input among the samples [0 .. n-2]; of two samples equally near it
    takes the one of higher index. *)
Lemma calculateByCurve_nearest_sample data curve mach :
  length data = length curve -> (2 <= length curve)%nat -> increasing data ->
  exists (m : nat) dm s,
    data !! m = Some dm /\ curve !! m = Some s
    /\ (m <= length curve - 2)%nat
    /\ calculateByCurve data curve mach = Ok (evalSegment s mach)
    /\ forall (j : nat) dj,
         (j <= length curve - 2)%nat -> data !! j = Some dj ->
         distance mach (DataPoint.A dm) <= distance mach (DataPoint.A dj)
         /\ (distance mach (DataPoint.A dm) == distance mach (DataPoint.A dj) ->
             (j <= m)%nat).
Proof.
  intros Hlen Hn Hinc.
  destruct (selectSegment_nearest data curve mach Hlen Hn Hinc)
    as (m & dm & Hsel & Hm & Hdm & Hnear).
  destruct (lookup_lt_is_Some_2 curve m) as [s Hs]; [lia|].
  exists m, dm, s.
  split; [exact Hdm|]. split; [exact Hs|]. split; [exact Hm|]. split; [|exact Hnear].
  unfold calculateByCurve. rewrite Hsel. cbn [mbind result_bind].
  rewrite (index_nat curve m s Hs). reflexivity.
Qed.

(** The segment selected does not move down when the Mach goes up. *)
Lemma selectSegment_monotone data curve mach mach' (m m' : Z) :
  length data = length curve -> (2 <= length curve)%nat -> increasing data ->
  mach <= mach' ->
  selectSegment data curve mach = Ok m -> selectSegment data curve mach' = Ok m' ->
  (m <= m')%Z.
Proof.
  intros Hlen Hn Hinc Hle Hsel Hsel'.
  destruct (selectSegment_nearest data curve mach Hlen Hn Hinc)
    as (k & dk & Hk & Hkn & Hdk & Hnear).
  destruct (selectSegment_nearest data curve mach' Hlen Hn Hinc)
    as (k' & dk' & Hk' & Hkn' & Hdk' & Hnear').
  assert (m = Z.of_nat k) as -> by congruence.
  assert (m' = Z.of_nat k') as -> by congruence.
  destruct (decide (k <= k')%nat) as [|Hgt]; [lia|exfalso].
  pose proof (increasing_mono data Hinc k' k dk' dk ltac:(lia) Hdk' Hdk) as Hlt.
  destruct (Hnear k' dk' Hkn' Hdk') as [H1 _].
  destruct (Hnear' k dk Hkn Hdk) as [H2 H3].
  assert (H4 : ~ distance mach' (DataPoint.A dk') == distance mach' (DataPoint.A dk))
    by (intros E; apply H3 in E; lia).
  destruct (distance_cases mach (DataPoint.A dk)) as [[? E1]|[? E1]],
           (distance_cases mach (DataPoint.A dk')) as [[? E2]|[? E2]],
           (distance_cases mach' (DataPoint.A dk)) as [[? E3]|[? E3]],
           (distance_cases mach' (DataPoint.A dk')) as [[? E4]|[? E4]];
    rewrite ?E1, ?E2, ?E3, ?E4 in *;
    try lra; apply H4; lra.
Qed.

(** The segments fitted to samples of a line [y = k x + c] are that
    line. *)
Lemma firstSegment_line (d0 d1 : DataPoint.t Q) (k c x : Q) :
  DataPoint.A d0 < DataPoint.A d1 ->
  DataPoint.B d0 == k * DataPoint.A d0 + c ->
  DataPoint.B d1 == k * DataPoint.A d1 + c ->
  evalSegment (firstSegment d0 d1) x == k * x + c.
Proof.
  destruct d0 as [x0 y0], d1 as [x1 y1]. cbn. intros H01 E0 E1.
  pose proof (gap_nonzero x0 x1 H01) as HG.
  unfold evalSegment, firstSegment. cbn. rewrite E0, E1. field. exact HG.
Qed.

Lemma fitThree_line (p1 p2 p3 : DataPoint.t Q) (k c x : Q) :
  DataPoint.A p1 < DataPoint.A p2 -> DataPoint.A p2 < DataPoint.A p3 ->
  DataPoint.B p1 == k * DataPoint.A p1 + c ->
  DataPoint.B p2 == k * DataPoint.A p2 + c ->
  DataPoint.B p3 == k * DataPoint.A p3 + c ->
  evalSegment (fitThree p1 p2 p3) x == k * x + c.
Proof.
  destruct p1 as [x1 y1], p2 as [x2 y2], p3 as [x3 y3]. cbn.
  intros H12 H23 E1 E2 E3.
  pose proof (fit_denominator x1 x2 x3 H12 H23) as HD.
  pose proof (gap_nonzero x1 x2 H12) as HG.
  unfold evalSegment, fitThree. cbn. rewrite E1, E2, E3.
  field. split; assumption.
Qed.

(** The segment of index [m <= n-2] of a fitted curve: the first segment
    or a three-point fit. *)
Lemma fitted_segment data curve (m : nat) :
  (2 <= length data)%nat -> calculateCurve data = Ok curve ->
  (m <= length data - 2)%nat ->
  (m = 0%nat /\ exists d0 d1, data !! 0%nat = Some d0 /\ data !! 1%nat = Some d1
                 /\ curve !! 0%nat = Some (firstSegment d0 d1))
  \/ ((1 <= m)%nat /\ exists p1 p2 p3,
        data !! (m - 1)%nat = Some p1 /\ data !! m = Some p2 /\ data !! S m = Some p3
        /\ curve !! m = Some (fitThree p1 p2 p3)).
Proof.
  intros Hn Hc Hm.
  destruct (calculateCurve_spec data Hn) as (curve' & Hc' & Hlen & Hfirst & Hmid & _).
  assert (curve' = curve) as -> by congruence.
  destruct (decide (m = 0)%nat) as [->|Hpos].
  - left. split; [reflexivity|].
    destruct (lookup_lt_is_Some_2 data 0) as [d0 Hd0]; [lia|].
    destruct (lookup_lt_is_Some_2 data 1) as [d1 Hd1]; [lia|].
    exists d0, d1. auto.
  - right. split; [lia|].
    destruct (lookup_lt_is_Some_2 data (m - 1)) as [p1 Hp1]; [lia|].
    destruct (lookup_lt_is_Some_2 data m) as [p2 Hp2]; [lia|].
    destruct (lookup_lt_is_Some_2 data (S m)) as [p3 Hp3]; [lia|].
    exists p1, p2, p3. repeat split; auto. apply Hmid; auto; lia.
Qed.

(** Fitting and evaluating compose to the identity on linear data: when
    the samples of a table of strictly increasing Mach lie on a line, the
    fitted curve returns the value of that line at every Mach, inside the
    range of the table and outside it. *)
Lemma linear_table_exact data (k c : Q) mach :
  (2 <= length data)%nat -> increasing data ->
  (forall (i : nat) p, data !! i = Some p -> DataPoint.B p == k * DataPoint.A p + c) ->
  exists curve v,
    calculateCurve data = Ok curve
    /\ calculateByCurve data curve mach = Ok v
    /\ v == k * mach + c.
Proof.
  intros Hn Hinc Hline.
  destruct (calculateCurve_spec data Hn) as (curve & Hc & Hlen & _).
  destruct (calculateByCurve_returns data curve mach) as (m & s & _ & Hm & Hs & Hv);
    [lia..|].
  exists curve, (evalSegment s mach). split; [exact Hc|]. split; [exact Hv|].
  destruct (fitted_segment data curve (Z.to_nat m) Hn Hc ltac:(lia))
    as [[Em (d0 & d1 & Hd0 & Hd1 & Hs0)]|[Em (p1 & p2 & p3 & Hp1 & Hp2 & Hp3 & Hsm)]].
  - rewrite Em in Hs. assert (s = firstSegment d0 d1) as -> by congruence.
    apply firstSegment_line; eauto.
    exact (increasing_lt data 0 d0 d1 Hinc Hd0 Hd1).
  - assert (s = fitThree p1 p2 p3) as -> by congruence.
    apply fitThree_line; eauto.
    + apply (increasing_lt data (Z.to_nat m - 1)); auto.
      replace (S (Z.to_nat m - 1)) with (Z.to_nat m) by lia. exact Hp2.
    + exact (increasing_lt data (Z.to_nat m) p2 p3 Hinc Hp2 Hp3).
Qed.

(** Outside the range of a table of [n >= 3] samples of strictly
    increasing Mach: below the first sample the value returned is that of
    the line through the first two samples; above the last sample it is
    that of the quadratic through the last three samples. *)
Lemma extrapolation_exact data curve d0 d1 dj dk dl :
  (3 <= length data)%nat -> increasing data -> calculateCurve data = Ok curve ->
  data !! 0%nat = Some d0 -> data !! 1%nat = Some d1 ->
  data !! (length data - 3)%nat = Some dj -> data !! (length data - 2)%nat = Some dk ->
  data !! (length data - 1)%nat = Some dl ->
  (forall mach, mach < DataPoint.A d0 ->
     calculateByCurve data curve mach = Ok (evalSegment (firstSegment d0 d1) mach))
  /\ (forall mach, DataPoint.A dl < mach ->
        calculateByCurve data curve mach = Ok (evalSegment (fitThree dj dk dl) mach)).
Proof.
  intros Hn Hinc Hc Hd0 Hd1 Hdj Hdk Hdl.
  destruct (calculateCurve_spec data ltac:(lia)) as (curve' & Hc' & Hlen & Hfirst & Hmid & _).
  assert (curve' = curve) as -> by congruence.
  split; intros mach Hmach; unfold calculateByCurve.
  - rewrite (selectSegment_below data curve mach d0); [|lia|lia|exact Hinc|exact Hd0|exact Hmach].
    cbn [mbind result_bind].
    assert (E : index curve 0 = Ok (firstSegment d0 d1))
      by (apply index_Ok; split; [lia|]; apply Hfirst; assumption).
    rewrite E. reflexivity.
  - assert (Hkl : DataPoint.A dk < DataPoint.A dl).
    { apply (increasing_lt data (length data - 2)); auto.
      replace (S (length data - 2)) with (length data - 1)%nat by lia. exact Hdl. }
    rewrite (selectSegment_above data curve mach dk);
      [|lia|lia|exact Hinc|rewrite Hlen; exact Hdk|lra].
    cbn [mbind result_bind].
    assert (E : index curve (Z.of_nat (length curve) - 2) = Ok (fitThree dj dk dl)).
    { apply index_Ok. split; [lia|].
      replace (Z.to_nat (Z.of_nat (length curve) - 2)) with (length data - 2)%nat by lia.
      apply Hmid; auto; try lia.
      - replace (length data - 2 - 1)%nat with (length data - 3)%nat by lia. exact Hdj.
      - replace (S (length data - 2)) with (length data - 1)%nat by lia. exact Hdl. }
    rewrite E. reflexivity.
Qed.

(** The fitted curve is continuous at its samples, the last segment
    apart: for [i+1 <= n-2] the segments [i] and [i+1] both take, at the
    Mach of the samples [i] and [i+1], the coefficients of these
    samples. *)
Lemma fitted_curve_continuous data (i : nat) :
  (2 <= length data)%nat -> increasing data -> (S i <= length data - 2)%nat ->
  exists curve s s' p q,
    calculateCurve data = Ok curve
    /\ curve !! i = Some s /\ curve !! S i = Some s'
    /\ data !! i = Some p /\ data !! S i = Some q
    /\ evalSegment s (DataPoint.A p) == DataPoint.B p
    /\ evalSegment s' (DataPoint.A p) == DataPoint.B p
    /\ evalSegment s (DataPoint.A q) == DataPoint.B q
    /\ evalSegment s' (DataPoint.A q) == DataPoint.B q.
Proof.
  intros Hn Hinc Hi.
  destruct (calculateCurve_spec data Hn) as (curve & Hc & Hlen & _).
  destruct (lookup_lt_is_Some_2 curve i) as [s Hs]; [lia|].
  destruct (lookup_lt_is_Some_2 curve (S i)) as [s' Hs']; [lia|].
  destruct (lookup_lt_is_Some_2 data i) as [p Hp]; [lia|].
  destruct (lookup_lt_is_Some_2 data (S i)) as [q Hq]; [lia|].
  destruct (lookup_lt_is_Some_2 data (S (S i))) as [r Hr]; [lia|].
  destruct (segment_passes data curve i s p q) as [H1 H2]; auto; [lia|].
  destruct (segment_passes data curve (S i) s' q r) as [H3 _]; auto.
  assert (H4 : passes s' p).
  { apply (segment_passes_previous data curve (S i)); auto; [lia|].
    replace (S i - 1)%nat with i by lia. exact Hp. }
  exists curve, s, s', p, q. repeat split; assumption.
Qed.

End ExactEvaluator.

(** ** Locality of the fit *)

Section Locality.
Context {F : Type} `{Float64 F}.
Implicit Types (data : list (DataPoint.t F)) (curve : list (CurvePoint.t F)).

(** The fit is local: the interior segment [i] depends on the samples
    [i-1], [i] and [i+1] only.  Two tables of the same length that agree
    on these three samples have the same segment [i], in any arithmetic. *)
Theorem fit_is_local data data' curve curve' (i : nat) :
  length data = length data' -> (1 <= i)%nat -> (S i < length data)%nat ->
  data !! (i - 1)%nat = data' !! (i - 1)%nat -> data !! i = data' !! i ->
  data !! S i = data' !! S i ->
  calculateCurve data = Ok curve -> calculateCurve data' = Ok curve' ->
  curve !! i = curve' !! i.
Proof.
  intros Hlen Hi Hn E1 E2 E3 Hc Hc'.
  destruct (calculateCurve_spec data ltac:(lia)) as (c & Hc1 & _ & _ & Hmid & _).
  destruct (calculateCurve_spec data' ltac:(lia)) as (c' & Hc1' & _ & _ & Hmid' & _).
  assert (c = curve) as -> by congruence. assert (c' = curve') as -> by congruence.
  destruct (lookup_lt_is_Some_2 data (i - 1)) as [p1 Hp1]; [lia|].
  destruct (lookup_lt_is_Some_2 data i) as [p2 Hp2]; [lia|].
  destruct (lookup_lt_is_Some_2 data (S i)) as [p3 Hp3]; [lia|].
  rewrite (Hmid i p1 p2 p3), (Hmid' i p1 p2 p3); auto; try lia; congruence.
Qed.

End Locality.

(** ** The theorems above at concrete inputs *)

Section Witnesses.
Local Open Scope f64_scope.

Lemma calculateByCurve_short_witness :
  calculateByCurve (@nil (DataPoint.t b64)) [] (fconst 1.0) = Panic index_out_of_range.
Proof. apply calculateByCurve_short. right. reflexivity. Defined.

Lemma calculateByCurve_ignores_last_sample_witness :
  calculateByCurve (@g1Table b64 _) (replicate 79 (CurvePoint.mk (fconst 0) (fconst 0) (fconst 1)))
                   (fconst 4.95)
  = calculateByCurve (take 78 (@g1Table b64 _))
                     (replicate 79 (CurvePoint.mk (fconst 0) (fconst 0) (fconst 1)))
                     (fconst 4.95).
Proof. apply calculateByCurve_ignores_last_sample. vm_compute. reflexivity. Defined.

Lemma searchLoop_logarithmic_witness :
  searchLoop 7 (@g1Table b64 _) (fconst 2.463) 0 77 <> OutOfFuel.
Proof.
  apply (searchLoop_logarithmic (@g1Table b64 _) (fconst 2.463) 7 0 77).
  vm_compute. discriminate.
Defined.

Lemma calculateByCurve_nan_witness :
  calculateByCurve (@g1Table b64 _)
    (replicate 79 (CurvePoint.mk (fconst 0) (fconst 0) (fconst 1))) S754_nan
  = Ok S754_nan.
Proof.
  apply (calculateByCurve_nan (@g1Table b64 _)
           (replicate 79 (CurvePoint.mk (fconst 0) (fconst 0) (fconst 1)))).
  - vm_compute. reflexivity.
  - vm_compute. lia.
Defined.

Lemma CreateBallisticCoefficient_nan_witness :
  exists bc, @CreateBallisticCoefficient b64 _ S754_nan DragTableG7 = Ok bc
             /\ Drag bc (fconst 2.0) = Ok S754_nan.
Proof. apply CreateBallisticCoefficient_nan. vm_compute. split; discriminate. Defined.

Lemma calculateByCurve_bracket_witness :
  exists c : CurvePoint.t b64,
    calculateByCurve customTable (match calculateCurve customTable with Ok c => c | _ => [] end)
                     (fconst 0.86) = Ok (evalSegment c (fconst 0.86)).
Proof.
  destruct (calculateByCurve_bracket (@customTable b64 _)
              (match calculateCurve customTable with Ok c => c | _ => [] end)
              (fconst 0.86))
    as (lo & hi & dlo & dhi & c & _ & _ & _ & _ & _ & _ & _ & _ & Hv).
  - vm_compute. reflexivity.
  - vm_compute. lia.
  - exists c. exact Hv.
Defined.

Lemma calculateByCurve_between_samples_witness :
  exists c : CurvePoint.t b64,
    calculateByCurve customTable (match calculateCurve customTable with Ok c => c | _ => [] end)
                     (fconst 0.86) = Ok (evalSegment c (fconst 0.86)).
Proof.
  destruct (calculateByCurve_between_samples (@customTable b64 _)
              (match calculateCurve customTable with Ok c => c | _ => [] end)
              (fconst 0.86))
    as (lo & hi & dlo & dhi & c & _ & _ & _ & _ & _ & _ & _ & _ & Hv).
  - apply increasingb_correct. vm_compute. reflexivity.
  - vm_compute. reflexivity.
  - vm_compute. lia.
  - exists c. exact Hv.
Defined.

Lemma calculateByCurve_at_sample_witness :
  exists c : CurvePoint.t b64,
    (match calculateCurve customTable with Ok c => c | _ => [] end) !! 3%nat = Some c
    /\ calculateByCurve customTable
         (match calculateCurve customTable with Ok c => c | _ => [] end) (fconst 0.87)
       = Ok (evalSegment c (fconst 0.87)).
Proof.
  apply (calculateByCurve_at_sample (@customTable b64 _)
           (match calculateCurve customTable with Ok c => c | _ => [] end)
           3 (point 0.87 0.122)).
  - apply finiteTableb_correct. vm_compute. reflexivity.
  - apply increasingb_correct. vm_compute. reflexivity.
  - vm_compute. reflexivity.
  - vm_compute. lia.
  - vm_compute. lia.
  - reflexivity.
Defined.

Lemma calculateByCurve_out_of_range_witness :
  exists ck : CurvePoint.t b64,
    (match calculateCurve customTable with Ok c => c | _ => [] end) !! 5%nat = Some ck
    /\ calculateByCurve customTable
         (match calculateCurve customTable with Ok c => c | _ => [] end) (fconst 2.0)
       = Ok (evalSegment ck (fconst 2.0)).
Proof.
  destruct (lookup_lt_is_Some_2
              (match calculateCurve (@customTable b64 _) with Ok c => c | _ => [] end) 5)
    as [ck Hck].
  { vm_compute. lia. }
  exists ck. split; [exact Hck|].
  apply (proj2 (calculateByCurve_out_of_range (@customTable b64 _)
                  (match calculateCurve customTable with Ok c => c | _ => [] end)
                  (fconst 2.0)
                  ltac:(apply finiteTableb_correct; vm_compute; reflexivity)
                  ltac:(apply increasingb_correct; vm_compute; reflexivity)
                  ltac:(vm_compute; reflexivity)
                  ltac:(vm_compute; reflexivity)
                  ltac:(vm_compute; lia))
          (point 0.93 0.148) ck).
  - vm_compute. reflexivity.
  - vm_compute. vm_compute in Hck. exact Hck.
  - vm_compute. reflexivity.
Defined.

End Witnesses.

Section LocalityWitness.

Lemma fit_is_local_witness :
  exists curve curve' : list (CurvePoint.t b64),
    calculateCurve customTable = Ok curve
    /\ calculateCurve (<[6%nat := point 2 0.3]> customTable) = Ok curve'
    /\ curve !! 2%nat = curve' !! 2%nat.
Proof.
  destruct (calculateCurve (@customTable b64 _)) as [curve| | |] eqn:Hc;
    try (vm_compute in Hc; discriminate Hc).
  destruct (calculateCurve (<[6%nat := point 2 0.3]> (@customTable b64 _)))
    as [curve'| | |] eqn:Hc'; try (vm_compute in Hc'; discriminate Hc').
  exists curve, curve'. split; [reflexivity|]. split; [reflexivity|].
  apply (fit_is_local (@customTable b64 _) (<[6%nat := point 2 0.3]> customTable)
           curve curve' 2); try reflexivity; try exact Hc; try exact Hc'.
  - lia.
  - vm_compute. lia.
Defined.

End LocalityWitness.
